(** * The Dead Drop: daily puzzle scheduling and scoring engine

    A shallow embedding of [src/App.jsx]: the seeded shuffle
    ([seededRandom], [getMasterPuzzleList]), the day index
    ([getDayIndex]), the daily window ([getTodaysPuzzles]), answer
    verification and scoring ([hashGuess], [handleSubmit]) and the
    [localStorage] session (the load effect); then the render, the
    share text ([handleShare]) and the countdown
    ([calculateTimeLeft]). *)

From Stdlib Require Import ZArith NArith QArith Lia String Ascii Bool.
From Stdlib Require Import DecimalString DecimalZ DecimalN DecimalFacts.
From Stdlib Require Import Qabs Qround Qreduction Lqa.
From stdpp Require Import base list gmap strings.

Local Open Scope Z_scope.

(** ** JavaScript numbers

    Every number the engine computes with is an integer or an integer
    multiple of [2^-32].  A JavaScript number is an IEEE-754 double: an
    integer is held exactly while its magnitude is at most [2^53]; above
    that the result of an arithmetic operation is rounded to 53
    significant bits, ties to the even significand. *)
Module JsNum.

(** Round an integer to the nearest double (round-to-nearest, ties-to-even). *)
Definition rne53 (x : Z) : Z :=
  let a := Z.abs x in
  if a <=? 2 ^ 53 then x
  else
    let e := Z.log2 a - 52 in
    let q := a / 2 ^ e in
    let r := a mod 2 ^ e in
    let half := 2 ^ (e - 1) in
    let q' := if (half <? r) || ((r =? half) && Z.odd q) then q + 1 else q in
    Z.sgn x * (q' * 2 ^ e).

(** [x + y] on integer-valued doubles. *)
Definition add (x y : Z) : Z := rne53 (x + y).

(** [ToInt32] and [ToUint32] of an integer-valued double. *)
Definition ToUint32 (x : Z) : Z := x mod 2 ^ 32.
Definition ToInt32 (x : Z) : Z := (x + 2 ^ 31) mod 2 ^ 32 - 2 ^ 31.

(** [a ^ b], [a | b], [a >>> k] and [Math.imul(a, b)]. *)
Definition xor (a b : Z) : Z := Z.lxor (ToInt32 a) (ToInt32 b).
Definition or (a b : Z) : Z := Z.lor (ToInt32 a) (ToInt32 b).
Definition ushr (a k : Z) : Z := Z.shiftr (ToUint32 a) (k mod 32).
Definition imul (a b : Z) : Z := ToInt32 (ToInt32 a * ToInt32 b).

(** A double that is an integer multiple of [2^-32], held by its
    numerator: [Frac32 m] is the number [m / 2^32]. *)
Record frac32 := Frac32 { num32 : Z }.

Definition toQ (f : frac32) : Q := num32 f # 4294967296.

(** [u / 4294967296] for an unsigned 32-bit [u]: exact, a power of two. *)
Definition div_2_32 (u : Z) : frac32 := Frac32 u.

(** [f * k] for an integer [k]: the exact product rounded to a double. *)
Definition mul_int (f : frac32) (k : Z) : frac32 := Frac32 (rne53 (num32 f * k)).

(** [Math.floor]. *)
Definition floor (f : frac32) : Z := num32 f / 2 ^ 32.

End JsNum.

(** ** Deterministic shuffle engine: [seededRandom] *)
Module Prng.
Import JsNum.

(** The closure returned by [seededRandom(seed)] owns one mutable
    variable, [seed]. *)
Record generator := Generator { seed : Z }.

Definition seededRandom (s : Z) : generator := Generator s.

Definition increment : Z := 0x6D2B79F5.

(** Lines 8 to 10: from the value [t] to the returned number. *)
Definition mix (t0 : Z) : frac32 :=
  let t1 := imul (xor t0 (ushr t0 15)) (or t0 1) in
  let t2 := xor t1 (add t1 (imul (xor t1 (ushr t1 7)) (or t1 61))) in
  div_2_32 (ushr (xor t2 (ushr t2 14)) 0).

(** [seed += 0x6D2B79F5], an addition of doubles. *)
Definition advance (g : generator) : generator :=
  Generator (add (seed g) increment).

(** One call of the closure: [var t = seed += 0x6D2B79F5; ...; return ...]. *)
Definition call (g : generator) : frac32 * generator :=
  let g' := advance g in
  (mix (seed g'), g').

(** The generator after [n] calls, and the [n]-th number of the stream
    (the first call returns number 0). *)
Definition after (n : N) (g : generator) : generator :=
  N.iter n advance g.

Definition output (s : Z) (n : N) : frac32 :=
  fst (call (after n (seededRandom s))).

(** The numbers returned by [n] successive calls of one closure. *)
Fixpoint draws (n : nat) (g : generator) : list frac32 :=
  match n with
  | O => []
  | S n' => let (r, g') := call g in r :: draws n' g'
  end.

End Prng.

(** ** The puzzle pool ([puzzles.json], read-only input) *)
Module Pool.

(** One record of the pool; a field the JSON object lacks is [None]. *)
Record puzzle := Puzzle {
  id : Z;
  title : string;
  text : string;
  hint : string;
  answer : option string;
  answerHash : option string
}.

End Pool.

(** ** Master order: [getMasterPuzzleList] *)
Module Shuffle.
Import JsNum Prng Pool.

(** [[ids[i], ids[j]] = [ids[j], ids[i]]]: both reads happen before both
    writes.  The loop only calls it with [j <= i < ids.length]
    (lemma [draw_in_range]); outside the array nothing is modelled and
    the list is returned as it is. *)
Definition swap (ids : list Z) (i j : nat) : list Z :=
  match ids !! j, ids !! i with
  | Some x, Some y => <[j := y]> (<[i := x]> ids)
  | _, _ => ids
  end.

(** [Math.floor(random() * (i + 1))] for the number [r] just drawn. *)
Definition pick (r : frac32) (i : nat) : nat :=
  Z.to_nat (floor (mul_int r (Z.of_nat i + 1))).

(** [for (let i = ids.length - 1; i > 0; i--) { ... }], by recursion on [i]. *)
Fixpoint shuffle_loop (i : nat) (random : generator) (ids : list Z) : list Z :=
  match i with
  | O => ids
  | S i' =>
      let (r, random') := call random in
      let j := pick r i in
      shuffle_loop i' random' (swap ids i j)
  end.

Definition getMasterPuzzleList (puzzles : list puzzle) : list Z :=
  let random := seededRandom 42 in
  let ids := map id puzzles in
  shuffle_loop (length ids - 1) random ids.

End Shuffle.

(** ** Day index: [getDayIndex] *)
Module DayIndex.

(** What the host's [Date] contributes, as time values in milliseconds
    since 1970-01-01T00:00:00Z: [epoch] is
    [new Date('2024-01-01T00:00:00').getTime()] (a local time), and
    [localMidnight t] is the time value of a date [t] after
    [setHours(0, 0, 0, 0)].  Both depend on the device's time zone. *)
Record Clock := {
  epoch : Z;
  localMidnight : Z -> Z
}.

Definition msPerDay : Z := 86400000.

(** [Math.floor((today.getTime() - epoch) / 86400000)] where [today] is
    [now] after [setHours(0, 0, 0, 0)].  Time values of a [Date] stay
    below [8.64e15], so the quotient is below [2^27] and the floor of the
    double quotient is the floor of the exact one. *)
Definition getDayIndex (c : Clock) (now : Z) : Z :=
  (localMidnight c now - epoch c) / msPerDay.

(** What holds of the start of the local day in any zone: it is not
    after the instant, a later instant does not start its day earlier,
    and the epoch, a local 00:00, starts its own day. *)
Record civil (c : Clock) : Prop := {
  midnight_le : forall t, localMidnight c t <= t;
  midnight_mono : forall t u, t <= u -> localMidnight c t <= localMidnight c u;
  epoch_midnight : localMidnight c (epoch c) = epoch c
}.

(** A zone with a fixed offset [off] (milliseconds east of UTC): every
    local day lasts [msPerDay]. *)
Definition fixedZone (off : Z) : Clock := {|
  epoch := 1704067200000 - off;
  localMidnight := fun t => (t + off) / msPerDay * msPerDay - off
|}.

(** America/New_York: UTC-5, and UTC-4 between the second Sunday of March
    and the first Sunday of November (02:00 local).  The two transition
    instants below are those of 2024, so the clock stands for that zone
    from 2024-01-01 until early March 2025. *)
Module NewYork.
Definition hour : Z := 3600000.
Definition jan1_utc : Z := 1704067200000.
Definition dst_start : Z := jan1_utc + 69 * msPerDay + 7 * hour.
Definition dst_end : Z := jan1_utc + 307 * msPerDay + 6 * hour.
Definition offset (t : Z) : Z :=
  if (dst_start <=? t) && (t <? dst_end) then -4 * hour else -5 * hour.
(** Start of the local day of [t]: take the wall-clock date of [t],
    then the instant at which that date's 00:00 was shown. *)
Definition midnight (t : Z) : Z :=
  let wall := (t + offset t) / msPerDay * msPerDay in
  if offset (wall + 5 * hour) =? -5 * hour then wall + 5 * hour
  else wall + 4 * hour.
Definition clock : Clock := {| epoch := jan1_utc + 5 * hour; localMidnight := midnight |}.
End NewYork.

End DayIndex.

(** ** Daily set: [getTodaysPuzzles] *)
Module Select.
Import DayIndex.

(** [a % b] on integers: the sign follows the dividend; [None] is [NaN]. *)
Definition js_rem (a b : Z) : option Z :=
  if b =? 0 then None else Some (Z.rem a b).

(** [arr[index]]: [None] is [undefined], which is what an index that is
    [NaN], negative or past the end reads. *)
Definition array_get {A} (arr : list A) (index : option Z) : option A :=
  match index with
  | Some k => if 0 <=? k then arr !! Z.to_nat k else None
  | None => None
  end.

(** The loop body for slot [i], and the loop
    [for (let i = 0; i < 5; i++) todaysIds.push(...)].
    [dayIndex] is a day count, so [dayIndex * 5 + i] is exact. *)
Definition slot (dayIndex : Z) (masterPuzzleList : list Z) (i : Z) : option Z :=
  let index := js_rem (dayIndex * 5 + i) (Z.of_nat (length masterPuzzleList)) in
  array_get masterPuzzleList index.

Definition todaysIdsAt (dayIndex : Z) (masterPuzzleList : list Z) : list (option Z) :=
  fold_left (fun todaysIds i => todaysIds ++ [slot dayIndex masterPuzzleList i])
            [0; 1; 2; 3; 4] [].

Definition getTodaysPuzzles (c : Clock) (now : Z) (masterPuzzleList : list Z)
  : list (option Z) :=
  let dayIndex := getDayIndex c now in
  todaysIdsAt dayIndex masterPuzzleList.

End Select.

(** ** Outcomes of effectful code

    A call returns, throws, or falls outside what the model covers (a
    host behaviour the embedding gives no value to). *)
Module Outcome.

Inductive error := JsSyntaxError | JsTypeError.

Inductive outcome (A : Type) :=
| Done (a : A)
| Throws (e : error)
| Unmodelled.
Arguments Done {A} a.
Arguments Throws {A} e.
Arguments Unmodelled {A}.

Definition bind {A B} (m : outcome A) (k : A -> outcome B) : outcome B :=
  match m with
  | Done a => k a
  | Throws e => Throws e
  | Unmodelled => Unmodelled
  end.

End Outcome.

(** ** Strings

    A JavaScript string is a sequence of 16-bit code units.  The model
    covers the strings whose code units are below 256 (Basic Latin and
    Latin-1 Supplement), one [ascii] per code unit. *)
Module Text.
Import Outcome.

Definition code (c : ascii) : N := N_of_ascii c.

Definition between (lo hi n : N) : bool := ((lo <=? n) && (n <=? hi))%N.

(** The class [\s] on these code units: TAB, LF, VT, FF, CR, SPACE and
    NO-BREAK SPACE. *)
Definition isWhiteSpace (c : ascii) : bool :=
  between 9 13 (code c) || (code c =? 32)%N || (code c =? 160)%N.

(** [toLowerCase] on one code unit: [A-Z], and the Latin-1 capitals
    U+00C0 to U+00DE except the multiplication sign U+00D7. *)
Definition lowerUnit (c : ascii) : ascii :=
  if between 65 90 (code c) || (between 192 222 (code c) && negb (code c =? 215)%N)
  then ascii_of_N (code c + 32) else c.

Fixpoint toLowerCase (s : string) : string :=
  match s with
  | EmptyString => EmptyString
  | String c r => String (lowerUnit c) (toLowerCase r)
  end.

(** [s.replace(/\s/g, '')]. *)
Fixpoint removeWhiteSpace (s : string) : string :=
  match s with
  | EmptyString => EmptyString
  | String c r =>
      if isWhiteSpace c then removeWhiteSpace r else String c (removeWhiteSpace r)
  end.

Definition isDigit (c : ascii) : bool := between 48 57 (code c).

(** The longest prefix of decimal digits, and what follows it. *)
Fixpoint spanDigits (s : string) : string * string :=
  match s with
  | EmptyString => (EmptyString, EmptyString)
  | String c r =>
      if isDigit c then let (ds, rest) := spanDigits r in (String c ds, rest)
      else (EmptyString, s)
  end.

(** The integer a run of decimal digits denotes. *)
Definition decimalValue (ds : string) : Z :=
  match DecimalString.NilEmpty.uint_of_string ds with
  | Some d => Z.of_N (N.of_uint d)
  | None => 0
  end.

(** [String(n)] for an integer [n] (below [10^21] in magnitude). *)
Definition Number_toString (n : Z) : string :=
  DecimalString.NilZero.string_of_int (Z.to_int n).

(** The digits a positive number prints as: a non-empty run that does
    not start with [0]. *)
Inductive leadingDigit : Decimal.uint -> Prop :=
| lead1 d : leadingDigit (Decimal.D1 d)
| lead2 d : leadingDigit (Decimal.D2 d)
| lead3 d : leadingDigit (Decimal.D3 d)
| lead4 d : leadingDigit (Decimal.D4 d)
| lead5 d : leadingDigit (Decimal.D5 d)
| lead6 d : leadingDigit (Decimal.D6 d)
| lead7 d : leadingDigit (Decimal.D7 d)
| lead8 d : leadingDigit (Decimal.D8 d)
| lead9 d : leadingDigit (Decimal.D9 d).

(** [parseInt(s, 10)]: leading white space, an optional sign, then the
    longest run of digits; [None] is [NaN].  A run that denotes an
    integer above [2^53] is rounded by the host and is outside the
    model. *)
Fixpoint trimStart (s : string) : string :=
  match s with
  | String c r => if isWhiteSpace c then trimStart r else s
  | EmptyString => s
  end.

Definition parseDigits (s : string) : outcome (option Z) :=
  let (ds, _) := spanDigits s in
  match ds with
  | EmptyString => Done None
  | _ => if decimalValue ds <=? 2 ^ 53 then Done (Some (decimalValue ds))
         else Unmodelled
  end.

Definition parseInt10 (s : string) : outcome (option Z) :=
  match trimStart s with
  | String c r =>
      if Ascii.eqb c "-" then bind (parseDigits r) (fun v => Done (Z.opp <$> v))
      else if Ascii.eqb c "+" then parseDigits r
      else parseDigits (String c r)
  | EmptyString => Done None
  end.

(** [n || 0] for a number [n]: [NaN] and zero are falsy. *)
Definition orZero (n : option Z) : Z := default 0 n.

(** [String(v)] of what [localStorage.getItem] returned: [null] reads
    as the text ["null"]. *)
Definition textOf (v : option string) : string :=
  match v with Some s => s | None => "null" end.

End Text.

(** ** JSON texts

    [JSON.stringify] and [JSON.parse] on the values the session stores:
    [null], booleans, integers, and arrays of those.  Strings, objects,
    nested arrays, fractions, exponents and integers above [2^53] are
    outside the model: [parse] answers [Unmodelled] as soon
    as it meets one. *)
Module Json.
Import Outcome Text.

Inductive scalar := Null | Bool (b : bool) | Num (z : Z).
Inductive value := Scalar (s : scalar) | Arr (items : list scalar).

(** [v || ...]: [null], [false] and [0] are falsy, an array is truthy. *)
Definition truthy (v : value) : bool :=
  match v with
  | Scalar Null => false
  | Scalar (Bool b) => b
  | Scalar (Num z) => negb (z =? 0)
  | Arr _ => true
  end.

Definition stringifyScalar (s : scalar) : string :=
  match s with
  | Null => "null"
  | Bool true => "true"
  | Bool false => "false"
  | Num z => Number_toString z
  end.

Fixpoint joinComma (parts : list string) : string :=
  match parts with
  | [] => EmptyString
  | [p] => p
  | p :: ps => append p (String "," (joinComma ps))
  end.

Definition stringify (v : value) : string :=
  match v with
  | Scalar s => stringifyScalar s
  | Arr items =>
      String "[" (append (joinComma (map stringifyScalar items)) "]")
  end.

(** A scalar whose number, if it is one, is held exactly by a double. *)
Definition exact (s : scalar) : Prop :=
  match s with
  | Num z => Z.abs z <= 2 ^ 53
  | _ => True
  end.

(** The parser reads one code unit at a time. *)
Inductive ctx :=
| Top
| Items (read : list scalar).

Inductive state :=
| Bad
| Beyond
| Value (c : ctx) (first : bool)
| Minus (c : ctx)
| Zero (c : ctx)
| Digits (c : ctx) (neg : bool) (ds : string)
| Word (c : ctx) (w : string)
| After (items : list scalar)
| End (v : value).

Definition isJsonSpace (ch : ascii) : bool :=
  (code ch =? 32)%N || (code ch =? 9)%N || (code ch =? 10)%N || (code ch =? 13)%N.

Definition isLower (ch : ascii) : bool := between 97 122 (code ch).

(** A scalar is complete: at top level the text must end, in an array a
    comma or the closing bracket must follow. *)
Definition close (c : ctx) (s : scalar) : state :=
  match c with
  | Top => End (Scalar s)
  | Items read => After (read ++ [s])
  end.

Definition finishNumber (c : ctx) (neg : bool) (ds : string) : state :=
  if decimalValue ds <=? 2 ^ 53
  then close c (Num (if neg then - decimalValue ds else decimalValue ds))
  else Beyond.

Definition finishWord (c : ctx) (w : string) : state :=
  if String.eqb w "null" then close c Null
  else if String.eqb w "true" then close c (Bool true)
  else if String.eqb w "false" then close c (Bool false)
  else Bad.

(** Flush a number or literal that the next code unit ends. *)
Definition settle (st : state) : state :=
  match st with
  | Zero c => close c (Num 0)
  | Digits c neg ds => finishNumber c neg ds
  | Word c w => finishWord c w
  | Minus _ => Bad
  | _ => st
  end.

Definition between_tokens (st : state) (ch : ascii) : state :=
  match st with
  | Value c first =>
      if isJsonSpace ch then st
      else if Ascii.eqb ch "]" then (if first then End (Arr []) else Bad)
      else if Ascii.eqb ch "[" then
        match c with Top => Value (Items []) true | Items _ => Beyond end
      else if (code ch =? 34)%N || Ascii.eqb ch "{" then Beyond
      else if Ascii.eqb ch "-" then Minus c
      else if Ascii.eqb ch "0" then Zero c
      else if isDigit ch then Digits c false (String ch EmptyString)
      else if isLower ch then Word c (String ch EmptyString)
      else Bad
  | After items =>
      if isJsonSpace ch then st
      else if Ascii.eqb ch "," then Value (Items items) false
      else if Ascii.eqb ch "]" then End (Arr items)
      else Bad
  | End v => if isJsonSpace ch then st else Bad
  | _ => st
  end.

Definition isFractionMark (ch : ascii) : bool :=
  Ascii.eqb ch "." || Ascii.eqb ch "e" || Ascii.eqb ch "E".

Definition step (st : state) (ch : ascii) : state :=
  match st with
  | Minus c =>
      if Ascii.eqb ch "0" then Zero c
      else if isDigit ch then Digits c true (String ch EmptyString)
      else Bad
  | Zero c =>
      if isDigit ch then Bad
      else if isFractionMark ch then Beyond
      else between_tokens (settle st) ch
  | Digits c neg ds =>
      if isDigit ch then Digits c neg (append ds (String ch EmptyString))
      else if isFractionMark ch then Beyond
      else between_tokens (settle st) ch
  | Word c w =>
      if isLower ch then Word c (append w (String ch EmptyString))
      else between_tokens (settle st) ch
  | _ => between_tokens st ch
  end.

Fixpoint run (st : state) (text : string) : state :=
  match text with
  | EmptyString => st
  | String ch rest => run (step st ch) rest
  end.

Definition parse (text : string) : outcome value :=
  match settle (run (Value Top false) text) with
  | End v => Done v
  | Beyond => Unmodelled
  | _ => Throws JsSyntaxError
  end.

End Json.

(** ** Security: hashing engine ([hashGuess]) and the comparison of
    [handleSubmit] *)
Module Verify.
Import Text Pool.

(** [TextEncoder.encode]: UTF-8 of the code units below 256. *)
Definition utf8Unit (c : ascii) : list Byte.byte :=
  if (code c <? 128)%N then [byte_of_ascii c]
  else [byte_of_ascii (ascii_of_N (192 + code c / 64));
        byte_of_ascii (ascii_of_N (128 + code c mod 64))].

Fixpoint encode (s : string) : list Byte.byte :=
  match s with
  | EmptyString => []
  | String c r => utf8Unit c ++ encode r
  end.

(** [b.toString(16).padStart(2, '0')]. *)
Definition hexDigit (n : N) : ascii :=
  if (n <? 10)%N then ascii_of_N (48 + n) else ascii_of_N (87 + n).

Definition hexByte (b : Byte.byte) : string :=
  let n := Byte.to_N b in
  String (hexDigit (n / 16)) (String (hexDigit (n mod 16)) EmptyString).

Fixpoint join (parts : list string) : string :=
  match parts with
  | [] => EmptyString
  | p :: ps => append p (join ps)
  end.

(** A value read from a puzzle is truthy when it is a non-empty string. *)
Definition truthy (v : option string) : bool :=
  match v with
  | Some EmptyString => false
  | Some _ => true
  | None => false
  end.

Definition cleanGuess (guess : string) : string :=
  removeWhiteSpace (toLowerCase guess).

Section Host.
(** [crypto.subtle.digest('SHA-256', data)] of the host, an opaque
    one-way function; [None] when the call (or [TextEncoder], or
    [crypto] itself) throws or rejects. *)
Context (digest : list Byte.byte -> option (list Byte.byte)).

(** [hashGuess]: the [try] block, and ["error"] from the [catch]. *)
Definition hashGuess (text : string) : string :=
  match digest (encode text) with
  | Some hashArray => join (map hexByte hashArray)
  | None => "error"
  end.

(** Lines 157, 160 and 161 of [handleSubmit]; [===] on strings is
    equality of the code unit sequences. *)
Definition isCorrect (guess : string) (currentPuzzle : puzzle) : bool :=
  let cleanGuess := cleanGuess guess in
  let hashedInput := hashGuess cleanGuess in
  if truthy (answerHash currentPuzzle)
  then bool_decide (Some hashedInput = answerHash currentPuzzle)
  else bool_decide (Some cleanGuess = answer currentPuzzle).
End Host.

(** Case-insensitive comparison of two hexadecimal texts, the
    comparison the specification words. *)
Definition hexEqualIgnoringCase (a b : string) : bool :=
  bool_decide (toLowerCase a = toLowerCase b).

Definition isHexDigit (c : ascii) : bool :=
  isDigit c || between 97 102 (code c) || between 65 70 (code c).

Fixpoint allHex (s : string) : bool :=
  match s with
  | EmptyString => true
  | String c r => isHexDigit c && allHex r
  end.

(** A well-formed stored digest: 64 hexadecimal digits (32 bytes). *)
Definition wellFormedDigest (h : string) : bool :=
  allHex h && (String.length h =? 64)%nat.

End Verify.

(** ** A host digest: SHA-256

    What [crypto.subtle.digest('SHA-256', data)] computes (FIPS 180-4).
    The engine treats the digest as opaque; this instance serves where
    a statement is evaluated on a concrete host. *)
Module Sha256.

Definition w32 (x : Z) : Z := x mod 2 ^ 32.
Definition rotr (n x : Z) : Z := Z.lor (Z.shiftr x n) (w32 (Z.shiftl x (32 - n))).
Definition ch (x y z : Z) : Z := Z.lxor (Z.land x y) (Z.land (Z.lxor x 0xffffffff) z).
Definition maj (x y z : Z) : Z := Z.lxor (Z.lxor (Z.land x y) (Z.land x z)) (Z.land y z).
Definition bsig0 (x : Z) : Z := Z.lxor (rotr 2 x) (Z.lxor (rotr 13 x) (rotr 22 x)).
Definition bsig1 (x : Z) : Z := Z.lxor (rotr 6 x) (Z.lxor (rotr 11 x) (rotr 25 x)).
Definition ssig0 (x : Z) : Z := Z.lxor (rotr 7 x) (Z.lxor (rotr 18 x) (Z.shiftr x 3)).
Definition ssig1 (x : Z) : Z := Z.lxor (rotr 17 x) (Z.lxor (rotr 19 x) (Z.shiftr x 10)).

(** The constants are defined from the first 64 primes: the first 32
    bits of the fractional parts of their cube roots (round constants)
    and of the square roots of the first eight (initial hash value). *)
Definition isPrime (n : Z) : bool :=
  forallb (fun d => negb (n mod d =? 0)) (seqZ 2 (n - 2)).

Definition primes : list Z := filter (fun n => isPrime n = true) (seqZ 2 310).

(** The largest [r] in [[lo, hi)] with [r^3 <= n], by bisection. *)
Fixpoint cubeRootBetween (steps : nat) (lo hi n : Z) : Z :=
  match steps with
  | O => lo
  | S k =>
      let mid := (lo + hi) / 2 in
      if mid * mid * mid <=? n then cubeRootBetween k mid hi n
      else cubeRootBetween k lo mid n
  end.

Definition cubeRoot (n : Z) : Z := cubeRootBetween 40 0 (2 ^ 36) n.

Definition roundConstants : list Z :=
  map (fun p => w32 (cubeRoot (p * 2 ^ 96))) primes.

Definition initialHash : list Z :=
  map (fun p => w32 (Z.sqrt (p * 2 ^ 64))) (firstn 8 primes).

(** Big-endian bytes of a word and of the 64-bit bit length. *)
Definition bytesOf (count : nat) (x : Z) : list Z :=
  map (fun i => Z.shiftr x (8 * Z.of_nat i) mod 256) (rev (seq 0 count)).

Definition pad (msg : list Z) : list Z :=
  let len := Z.of_nat (length msg) in
  msg ++ [128] ++ repeat 0 (Z.to_nat ((55 - len) mod 64)) ++ bytesOf 8 (8 * len).

Fixpoint toWords (bs : list Z) : list Z :=
  match bs with
  | a :: b :: c :: d :: rest => (((a * 256 + b) * 256 + c) * 256 + d) :: toWords rest
  | _ => []
  end.

Definition extend (W : list Z) : list Z :=
  let t := length W in
  W ++ [w32 (ssig1 (nth (t - 2) W 0) + nth (t - 7) W 0
             + ssig0 (nth (t - 15) W 0) + nth (t - 16) W 0)].

Definition schedule (block : list Z) : list Z := Nat.iter 48 extend block.

Definition round (st : list Z) (kw : Z * Z) : list Z :=
  match st with
  | [a; b; c; d; e; f; g; h] =>
      let t1 := h + bsig1 e + ch e f g + fst kw + snd kw in
      let t2 := bsig0 a + maj a b c in
      [w32 (t1 + t2); a; b; c; w32 (d + t1); e; f; g]
  | _ => st
  end.

Definition compress (H block : list Z) : list Z :=
  let st := fold_left round (combine roundConstants (schedule block)) H in
  map (fun p => w32 (fst p + snd p)) (combine H st).

Fixpoint blocks (count : nat) (H words : list Z) : list Z :=
  match count with
  | O => H
  | S n => blocks n (compress H (firstn 16 words)) (skipn 16 words)
  end.

Definition hash (msg : list Z) : list Z :=
  let words := toWords (pad msg) in
  flat_map (bytesOf 4) (blocks (length words / 16) initialHash words).

Definition byteOfZ (z : Z) : Byte.byte :=
  default Byte.x00 (Byte.of_N (Z.to_N (z mod 256))).

Definition digest (data : list Byte.byte) : option (list Byte.byte) :=
  Some (map byteOfZ (hash (map (fun b => Z.of_N (Byte.to_N b)) data))).

End Sha256.

(** ** Scoring *)
Module Scoring.

(** [showHint ? 0 : (attempts === 0 ? 100 : (attempts === 1 ? 75 :
    (attempts === 2 ? 50 : 25)))]. *)
Definition pointsEarned (showHint : bool) (attempts : Z) : Z :=
  if showHint then 0
  else if attempts =? 0 then 100
  else if attempts =? 1 then 75
  else if attempts =? 2 then 50
  else 25.

End Scoring.

(** ** The component: state, load effect, [handleSubmit] *)
Module Session.
Import Outcome Text Json Pool Verify Scoring DayIndex Select Shuffle.

Inductive GameState := landing | rules | playing | done_for_day.
Inductive Status := idle | checking | success | error.

(** The [useState] cells the engine reads or writes ([showLore],
    [copied] and [timeLeft] only drive the display). *)
Record AppState := {
  gameState : GameState;
  puzzlesToday : Z;
  score : Z;
  scoreHistory : value;
  todaysPuzzles : list (option Z);
  guess : string;
  status : Status;
  showHint : bool;
  attempts : Z
}.

Definition initialState : AppState := {|
  gameState := landing; puzzlesToday := 0; score := 0; scoreHistory := Arr [];
  todaysPuzzles := []; guess := EmptyString; status := idle;
  showHint := false; attempts := 0
|}.

Definition setGameState (g : GameState) (s : AppState) : AppState :=
  {| gameState := g; puzzlesToday := puzzlesToday s; score := score s;
     scoreHistory := scoreHistory s; todaysPuzzles := todaysPuzzles s;
     guess := guess s; status := status s; showHint := showHint s;
     attempts := attempts s |}.

Definition setStatus (st : Status) (s : AppState) : AppState :=
  {| gameState := gameState s; puzzlesToday := puzzlesToday s; score := score s;
     scoreHistory := scoreHistory s; todaysPuzzles := todaysPuzzles s;
     guess := guess s; status := st; showHint := showHint s;
     attempts := attempts s |}.

Definition setGuess (g : string) (s : AppState) : AppState :=
  {| gameState := gameState s; puzzlesToday := puzzlesToday s; score := score s;
     scoreHistory := scoreHistory s; todaysPuzzles := todaysPuzzles s;
     guess := g; status := status s; showHint := showHint s;
     attempts := attempts s |}.

Definition setShowHint (b : bool) (s : AppState) : AppState :=
  {| gameState := gameState s; puzzlesToday := puzzlesToday s; score := score s;
     scoreHistory := scoreHistory s; todaysPuzzles := todaysPuzzles s;
     guess := guess s; status := status s; showHint := b;
     attempts := attempts s |}.

Definition setAttempts (a : Z) (s : AppState) : AppState :=
  {| gameState := gameState s; puzzlesToday := puzzlesToday s; score := score s;
     scoreHistory := scoreHistory s; todaysPuzzles := todaysPuzzles s;
     guess := guess s; status := status s; showHint := showHint s;
     attempts := a |}.

(** [setTodaysPuzzles], [setPuzzlesToday], [setScore], [setScoreHistory]. *)
Definition setSession (ids : list (option Z)) (p sc : Z) (h : value) (s : AppState)
  : AppState :=
  {| gameState := gameState s; puzzlesToday := p; score := sc;
     scoreHistory := h; todaysPuzzles := ids;
     guess := guess s; status := status s; showHint := showHint s;
     attempts := attempts s |}.

(** [localStorage]: string keys, string values; [getItem] of a missing
    key is [null]. *)
Definition setItem (k v : string) (ls : gmap string string) : gmap string string :=
  <[k := v]> ls.

(** The four writes of the reset, lines 117 to 120. *)
Definition writeReset (todayStr : string) (ls : gmap string string)
  : gmap string string :=
  setItem "gchq-history" (stringify (Arr []))
    (setItem "gchq-score" "0"
       (setItem "gchq-puzzles-today" "0"
          (setItem "gchq-date" todayStr ls))).

(** The load effect, lines 107 to 130.  [todayStr] is
    [new Date().toDateString()] and [loadedPuzzles] is
    [getTodaysPuzzles()].  The three reads are parsed before the date is
    compared, and [JSON.parse] throws on a text that is not JSON. *)
Definition load (todayStr : string) (loadedPuzzles : list (option Z))
    (ls : gmap string string) (s : AppState)
  : outcome (gmap string string * AppState) :=
  let savedDate := ls !! "gchq-date" in
  bind (parseInt10 (textOf (ls !! "gchq-puzzles-today"))) (fun p =>
  bind (parseInt10 (textOf (ls !! "gchq-score"))) (fun sc =>
  bind (parse (textOf (ls !! "gchq-history"))) (fun h =>
    let savedPuzzlesToday := orZero p in
    let savedScore := orZero sc in
    let savedHistory := if Json.truthy h then h else Arr [] in
    let differs := negb (bool_decide (savedDate = Some todayStr)) in
    let savedPuzzlesToday := if differs then 0 else savedPuzzlesToday in
    let savedScore := if differs then 0 else savedScore in
    let savedHistory := if differs then Arr [] else savedHistory in
    let ls' := if differs then writeReset todayStr ls else ls in
    let s1 := setSession loadedPuzzles savedPuzzlesToday savedScore savedHistory s in
    let s2 :=
      if 5 <=? savedPuzzlesToday then setGameState done_for_day s1
      else if 0 <? savedPuzzlesToday then setGameState playing s1
      else s1 in
    Done (ls', s2)))).

(** [[...scoreHistory, pointsEarned]]: only an array can be spread;
    [None] is the [TypeError] thrown for anything else. *)
Definition spread (h : value) (x : Z) : option value :=
  match h with
  | Arr items => Some (Arr (items ++ [Num x]))
  | Scalar _ => None
  end.

Section Handlers.
Context (digest : list Byte.byte -> option (list Byte.byte)).
Context (puzzles : list puzzle).

(** [todaysPuzzles[puzzlesToday]] and [puzzles.find(p => p.id === ...)]:
    [None] is [undefined]. *)
Definition currentPuzzleId (s : AppState) : option Z :=
  mjoin (array_get (todaysPuzzles s) (Some (puzzlesToday s))).

Definition currentPuzzle (s : AppState) : option puzzle :=
  match currentPuzzleId s with
  | Some i => find (fun p => Pool.id p =? i) puzzles
  | None => None
  end.

(** Line 155: the submission is dropped. *)
Definition dropped (s : AppState) : bool :=
  match guess s, status s with
  | EmptyString, _ => true
  | _, checking => true
  | _, success => true
  | _, _ => false
  end.

(** Lines 157 to 161; [None] is the [TypeError] thrown by reading
    [answerHash] of [undefined]. *)
Definition verdict (s : AppState) : option bool :=
  match currentPuzzle s with
  | Some p => Some (isCorrect digest (guess s) p)
  | None => None
  end.

(** The callback of the 1500 ms timer, lines 174 to 176. *)
Definition advance (newScore : Z) (newHistory : value) (newPuzzlesToday : Z)
    (cur : AppState) : AppState :=
  let s1 := setSession (todaysPuzzles cur) newPuzzlesToday newScore newHistory cur in
  let s2 := setStatus idle (setAttempts 0 (setShowHint false (setGuess EmptyString s1))) in
  if 5 <=? newPuzzlesToday then setGameState done_for_day s2 else s2.

(** The callback of the 400 ms timer when the guess is correct, lines
    165 to 173.  [snap] is the render the handler closed over, [cur]
    the state when the timer fires; the result carries the storage,
    the state, and the callback left pending. *)
Definition onCorrect (snap : AppState) (ls : gmap string string) (cur : AppState)
  : option (gmap string string * AppState * (AppState -> AppState)) :=
  let cur1 := setStatus success cur in
  let pointsEarned := pointsEarned (showHint snap) (attempts snap) in
  let newScore := score snap + pointsEarned in
  match spread (scoreHistory snap) pointsEarned with
  | Some newHistory =>
      let newPuzzlesToday := puzzlesToday snap + 1 in
      let ls1 := setItem "gchq-score" (Number_toString newScore) ls in
      let ls2 := setItem "gchq-history" (stringify newHistory) ls1 in
      let ls3 := setItem "gchq-puzzles-today" (Number_toString newPuzzlesToday) ls2 in
      Some (ls3, cur1, advance newScore newHistory newPuzzlesToday)
  | None => None
  end.

(** The callback of the 400 ms timer when the guess is wrong, lines 179
    and 180, with its 800 ms callback. *)
Definition retry (cur : AppState) : AppState :=
  setGuess EmptyString (setStatus idle cur).

Definition onWrong (cur : AppState) : AppState * (AppState -> AppState) :=
  (setAttempts (attempts cur + 1) (setStatus error cur), retry).

(** [handleSubmit] run to the end of its timers, with no other event in
    between (the event model of the specification: no input is accepted
    while a verification is in flight), so that the render the
    callbacks closed over is the state the guess was submitted in.  An
    exception is not caught by anything: the state stays where the
    statements before the throwing one left it. *)
Definition handleSubmit (ls : gmap string string) (s : AppState)
  : gmap string string * AppState :=
  if dropped s then (ls, s)
  else
    let s1 := setStatus checking s in
    match verdict s with
    | Some true =>
        match onCorrect s ls s1 with
        | Some (ls', s2, pending) => (ls', pending s2)
        | None => (ls, setStatus success s1)
        end
    | Some false => let (s2, pending) := onWrong s1 in (ls, pending s2)
    | None => (ls, s1)
    end.

(** The whole page: storage, component state, and whether the
    component is on the page (an exception thrown by an effect unmounts
    it). *)
Record world := World {
  store : gmap string string;
  ui : AppState;
  mounted : bool
}.

Context (clock : Clock).

Definition masterPuzzleList : list Z := getMasterPuzzleList puzzles.

(** Lines 300, 301 and 304 of the render:
    [currentPuzzleId ? puzzles.find(...) : null], where an identifier
    that is [undefined] or 0 is falsy.  The form (input, submit, hint
    button) is rendered on the playing screen when this puzzle exists. *)
Definition shownPuzzle (s : AppState) : option puzzle :=
  match currentPuzzleId s with
  | Some i => if i =? 0 then None else find (fun p => Pool.id p =? i) puzzles
  | None => None
  end.

Definition formShown (s : AppState) : bool :=
  match gameState s, shownPuzzle s with
  | playing, Some _ => true
  | _, _ => false
  end.

Definition inputEnabled (s : AppState) : bool :=
  match status s with
  | success | checking => false
  | _ => true
  end.

(** What can happen to the page. *)
Inductive event :=
| Mount (todayStr : string) (now : Z)
| Commence
| Acknowledge
| ViewRules
| TypeGuess (text : string)
| RevealHint
| Submit.

(** One event.  [Mount] is a page load: fresh component state, then
    the load effect.  The other events need the component on the page
    and the control they act on. *)
Definition react (e : event) (w : world) : outcome world :=
  let s := ui w in
  match e with
  | Mount todayStr now =>
      let loadedPuzzles := getTodaysPuzzles clock now masterPuzzleList in
      match load todayStr loadedPuzzles (store w) initialState with
      | Done (ls, s') => Done (World ls s' true)
      | Throws _ => Done (World (store w) initialState false)
      | Unmodelled => Unmodelled
      end
  | Commence =>
      match mounted w, gameState s with
      | true, landing => Done (World (store w) (setGameState rules s) true)
      | _, _ => Done w
      end
  | Acknowledge =>
      match mounted w, gameState s with
      | true, rules => Done (World (store w) (setGameState playing s) true)
      | _, _ => Done w
      end
  | ViewRules =>
      match mounted w, gameState s with
      | true, done_for_day => Done (World (store w) (setGameState rules s) true)
      | _, _ => Done w
      end
  | TypeGuess text =>
      if mounted w && formShown s && inputEnabled s
      then Done (World (store w) (setGuess text s) true) else Done w
  | RevealHint =>
      if mounted w && formShown s && negb (showHint s)
      then Done (World (store w) (setShowHint true s) true) else Done w
  | Submit =>
      if mounted w && formShown s then
        let (ls, s') := handleSubmit (store w) s in Done (World ls s' true)
      else Done w
  end.

(** A page opened on an origin with nothing stored, then any events. *)
Definition freshWorld : world := World ∅ initialState false.

Definition play (events : list event) : outcome world :=
  fold_left (fun w e => bind w (react e)) events (Done freshWorld).

End Handlers.

(** The state a wrong guess leaves behind once its two timers have
    fired, and the state and storage a correct one leaves behind. *)
Definition afterWrong (s : AppState) : AppState := {|
  gameState := gameState s; puzzlesToday := puzzlesToday s; score := score s;
  scoreHistory := scoreHistory s; todaysPuzzles := todaysPuzzles s;
  guess := EmptyString; status := idle; showHint := showHint s;
  attempts := attempts s + 1
|}.

Definition afterCorrect (s : AppState) (points : Z) (items : list scalar)
  : AppState := {|
  gameState := if 5 <=? puzzlesToday s + 1 then done_for_day else gameState s;
  puzzlesToday := puzzlesToday s + 1; score := score s + points;
  scoreHistory := Arr (items ++ [Num points]); todaysPuzzles := todaysPuzzles s;
  guess := EmptyString; status := idle; showHint := false; attempts := 0
|}.

Definition storedAfterCorrect (s : AppState) (points : Z) (items : list scalar)
    (ls : gmap string string) : gmap string string :=
  <["gchq-puzzles-today" := Number_toString (puzzlesToday s + 1)]>
    (<["gchq-history" := stringify (Arr (items ++ [Num points]))]>
       (<["gchq-score" := Number_toString (score s + points)]> ls)).

(** The session a load would resume from the storage: the three parsed
    values, as lines 111 to 113 read them. *)
Definition persisted (ls : gmap string string) : outcome (Z * Z * value) :=
  bind (parseInt10 (textOf (ls !! "gchq-puzzles-today"))) (fun p =>
  bind (parseInt10 (textOf (ls !! "gchq-score"))) (fun sc =>
  bind (parse (textOf (ls !! "gchq-history"))) (fun h =>
    Done (orZero p, orZero sc, if Json.truthy h then h else Arr [])))).

(** The awards a puzzle can earn, the sum of a history, and the
    invariant of the day's session: the history is an array of awards,
    the score is their sum, the counter is their number (at most five),
    and the storage holds what the component state holds. *)
Definition award (z : Z) : Prop :=
  z = 0 \/ z = 25 \/ z = 50 \/ z = 75 \/ z = 100.

Definition total (l : list Z) : Z := foldr Z.add 0 l.

Definition consistent (p sc : Z) (h : value) (l : list Z) : Prop :=
  h = Arr (map Num l) /\ Forall award l /\ sc = total l
  /\ p = Z.of_nat (length l) /\ (length l <= 5)%nat.

Definition sound (w : world) : Prop :=
  exists l : list Z,
    consistent (puzzlesToday (ui w)) (score (ui w)) (scoreHistory (ui w)) l
    /\ (length (todaysPuzzles (ui w)) <= 5)%nat
    /\ persisted (store w)
       = Done (puzzlesToday (ui w), score (ui w), scoreHistory (ui w)).

End Session.

(** ** Sample data for the worked examples *)
Module Samples.
Import Pool Session Json.

(** A puzzle verified by digest; the stored text is the SHA-256 of
    ["enigma"], in the lowercase form [hashGuess] produces. *)
Definition hashed : puzzle :=
  Puzzle 12 "Cipher" "Name the machine." "Bletchley"
    None (Some "67a4f45f0d1d9bc606486fc42dc4941668e71d34ee500735fe9b7ea4625c687c").

(** The same digest stored in capitals. *)
Definition hashedUpper : puzzle :=
  Puzzle 12 "Cipher" "Name the machine." "Bletchley"
    None (Some "67A4F45F0D1D9BC606486FC42DC4941668E71D34EE500735FE9B7EA4625C687C").

(** A puzzle verified against its plain answer. *)
Definition plain (i : Z) : puzzle :=
  Puzzle i "Sled" "Name the sled." "Kane" (Some "rosebud") None.

Definition pool : list puzzle :=
  [plain 1; plain 2; plain 3; plain 4; plain 5; plain 6; hashed].

Definition today : string := "Mon Nov 02 2026".
Definition yesterday : string := "Sun Nov 01 2026".

(** The playing screen on the first puzzle of a day whose set starts
    with puzzle 12. *)
Definition playingOn (text : string) : AppState := {|
  gameState := playing; puzzlesToday := 0; score := 0; scoreHistory := Arr [];
  todaysPuzzles := [Some 12; Some 1; Some 2; Some 3; Some 4];
  guess := text; status := idle; showHint := false; attempts := 0
|}.

(** Yesterday's session with a history text cut short, and the same
    values under today's date. *)
Definition stored (date history : string) : gmap string string :=
  <["gchq-history" := history]>
    (<["gchq-score" := "175"]>
       (<["gchq-puzzles-today" := "2"]>
          (<["gchq-date" := date]> ∅))).

(** 2026-11-02T12:00:00Z, and a visit: two wrong guesses, the right
    one, then the hint and the right guess on the next puzzle. *)
Definition noon : Z := 1793620800000.

Definition visit : list event :=
  [Mount today noon; Commence; Acknowledge;
   TypeGuess "x"; Submit; TypeGuess "y"; Submit; TypeGuess " Rose Bud"; Submit;
   RevealHint; TypeGuess "rosebud"; Submit].

(** No digest available: every call throws. *)
Definition noDigest (data : list Byte.byte) : option (list Byte.byte) := None.

End Samples.

(** ** Reference generator, in the words of the specification

    Mulberry32 with a 32-bit state: every operation is taken in
    fixed-width unsigned 32-bit arithmetic, wrapping modulo [2^32]. *)
Module Mulberry32.
Import JsNum.

Definition wrap (x : Z) : Z := x mod 2 ^ 32.

Definition next32 (s : Z) : Z := wrap (s + 0x6D2B79F5).

Definition mix32 (t0 : Z) : Z :=
  let t1 := wrap (Z.lxor t0 (Z.shiftr t0 15) * Z.lor t0 1) in
  let t2 := Z.lxor t1 (wrap (t1 + wrap (Z.lxor t1 (Z.shiftr t1 7) * Z.lor t1 61))) in
  Z.lxor t2 (Z.shiftr t2 14).

(** The state after [n] steps and the [n]-th number (from 0). *)
Definition state32 (s : Z) (n : N) : Z := N.iter n next32 (wrap s).

Definition output32 (s : Z) (n : N) : frac32 :=
  div_2_32 (mix32 (next32 (state32 s n))).

End Mulberry32.

(** ** Reference shuffle, in the words of the specification

    Fisher-Yates with the index [i] going from [length - 1] down to [1];
    step number [k] (from 0) draws the [k]-th number [r] of the stream,
    computes [j = floor(r * (i + 1))] and swaps positions [i] and [j]. *)
Module FisherYates.
Import JsNum Prng.

Definition swap_positions (l : list Z) (i j : nat) : list Z :=
  match l !! i, l !! j with
  | Some a, Some b => <[i := b]> (<[j := a]> l)
  | _, _ => l
  end.

Definition step (seed : Z) (len : nat) (ids : list Z) (k : nat) : list Z :=
  let i := (len - 1 - k)%nat in
  let r := output seed (N.of_nat k) in
  let j := Z.to_nat (floor (mul_int r (Z.of_nat i + 1))) in
  swap_positions ids i j.

Definition build (pool_ids : list Z) (seed : Z) : list Z :=
  fold_left (step seed (length pool_ids)) (seq 0 (length pool_ids - 1)) pool_ids.

End FisherYates.

(** ** The render: which screen a state shows, and the controls of the
    puzzle screen (lines 210 to 339) *)
Module Display.
Import Text Json Pool Session.

(** [s.padStart(targetLength, '0')]: the filler is one code unit, and a
    text that is long enough is returned as it is. *)
Definition padStart (targetLength : nat) (filler : ascii) (s : string) : string :=
  append (string_of_list_ascii (replicate (targetLength - String.length s) filler)) s.

(** The four early returns and [if (!currentPuzzle) return null]. *)
Inductive screen :=
| LandingScreen
| RulesScreen
| DoneScreen
| Blank
| PuzzleScreen (currentPuzzle : puzzle).

Definition render (puzzles : list puzzle) (s : AppState) : screen :=
  match gameState s with
  | landing => LandingScreen
  | rules => RulesScreen
  | done_for_day => DoneScreen
  | playing =>
      match shownPuzzle puzzles s with
      | Some currentPuzzle => PuzzleScreen currentPuzzle
      | None => Blank
      end
  end.

(** Line 302, the value the header shows. *)
Definition currentPuzzleValue (s : AppState) : Z :=
  if showHint s then 0
  else if attempts s =? 0 then 100
  else if attempts s =? 1 then 75
  else if attempts s =? 2 then 50
  else 25.

(** Lines 310 to 312: the five segments of the progress bar. *)
Inductive segment := Solved | Current | Ahead.

Definition progress (s : AppState) : list segment :=
  map (fun i => if i <? puzzlesToday s then Solved
                else if i =? puzzlesToday s then Current else Ahead)
      [0; 1; 2; 3; 4].

(** Line 318, [Intel {puzzlesToday + 1}/5], and line 322,
    [ID: {currentPuzzle.id.toString().padStart(4, '0')}]. *)
Definition intelLabel (s : AppState) : string :=
  append "Intel " (append (Number_toString (puzzlesToday s + 1)) "/5").

Definition idLabel (p : puzzle) : string :=
  append "ID: " (padStart 4 "0" (Number_toString (id p))).

(** The [disabled] attribute of the submit button (line 331):
    [!guess || status !== 'idle']. *)
Definition submitDisabled (s : AppState) : bool :=
  match guess s, status s with
  | EmptyString, _ => true
  | _, idle => false
  | _, _ => true
  end.

End Display.

(** ** Sharing the result: [handleShare]

    The share text holds characters outside Latin-1; it is only ever
    concatenated, so it is kept as the UTF-8 bytes of the text, the
    form in which the source file holds its literals. *)
Module Share.
Import Text Json Verify Session.

(** The callback of [scoreHistory.map]: [===] against a number is false
    for [null] and for a boolean. *)
Definition block (pts : scalar) : string :=
  match pts with
  | Num z =>
      if z =? 100 then "🟩"
      else if z =? 75 then "🟨"
      else if z =? 50 then "🟧"
      else if z =? 25 then "🟥"
      else "⬛"
  | _ => "⬛"
  end.

(** [scoreHistory.map(...).join('')]; [None] is the [TypeError] of
    calling [map] on a value that is not an array. *)
Definition blocks (scoreHistory : value) : option string :=
  match scoreHistory with
  | Arr items => Some (join (map block items))
  | Scalar _ => None
  end.

Definition rank (score : Z) : string :=
  let rank := "Field Agent" in
  if score =? 500 then "Double-O Status 🕵️‍♂️"
  else if 400 <=? score then "Senior Intelligence 🗄️"
  else if 200 <=? score then "Field Agent 🏃"
  else "Burn Notice 🚨".





End Share.

(** ** Division of doubles

    [x / y] on doubles is the exact quotient rounded to 53 significant
    bits, to the nearest, ties to the even significand.  Doubles are
    held as the rationals they denote.  The exponent is not bounded (no
    overflow, no subnormal numbers), and the divisors of the engine are
    constants other than zero.  [%] and [Math.floor] are exact. *)
Module JsDouble.
Local Open Scope Q_scope.

(** The nearest integer, ties to the even one. *)
Definition roundEven (s : Q) : Z :=
  let f := Qfloor s in
  match Qcompare (s - inject_Z f) (1 # 2) with
  | Lt => f
  | Gt => (f + 1)%Z
  | Eq => if Z.even f then f else (f + 1)%Z
  end.

(** The power of two that brings a positive [x] into [[2^52, 2^53)]. *)
Definition scale (x : Q) : Q :=
  let c0 := inject_Z (2 ^ 53 * 2 ^ Z.log2 (Zpos (Qden x)))
            / inject_Z (2 ^ Z.log2 (Qnum x)) in
  if Qle_bool (inject_Z (2 ^ 53)) (x * c0) then c0 / 2 else c0.

Definition roundPositive (x : Q) : Q :=
  inject_Z (roundEven (x * scale x)) / scale x.

(** The double nearest to a rational. *)
Definition fl (x : Q) : Q :=
  let r := Qred x in
  match Qnum r with
  | Z0 => 0
  | Zpos _ => roundPositive r
  | Zneg _ => - roundPositive (- r)
  end.

Definition divide (x y : Q) : Q := fl (x / y).

(** [x % y]: the dividend less the divisor times the quotient truncated
    towards zero. *)
Definition trunc (x : Q) : Z := if Qle_bool 0 x then Qfloor x else Qceiling x.

Definition rem (x y : Q) : Q := x - y * inject_Z (trunc (x / y)).

(** What the floors of the engine need of a division, and all they
    need: it gives the same double for the same numbers, an integer
    quotient of magnitude at most [2^53] exactly, and a quotient in the
    range of the normal doubles with a relative error of at most
    [2^-53]. *)
Definition normal (x : Q) : Prop :=
  Qpower 2 (-1022) <= Qabs x /\ Qabs x <= Qpower 2 1023.

Definition ulpHalf : Q := Qpower 2 (-53).

Record correctlyRounded (div : Q -> Q -> Q) : Prop := {
  div_proper : forall x x' y y', x == x' -> y == y' -> div x y == div x' y';
  div_exact : forall x y (n : Z),
    ~ y == 0 -> x / y == inject_Z n -> (Z.abs n <= 2 ^ 53)%Z ->
    div x y == inject_Z n;
  div_close : forall x y,
    ~ y == 0 -> normal (x / y) ->
    Qabs (div x y - x / y) <= Qabs (x / y) * ulpHalf
}.

End JsDouble.

(** ** The quotient of [getDayIndex], in doubles *)
Module DayQuotient.
Import DayIndex JsDouble.

(** Line 30 with its division done in doubles: the subtraction is exact
    while the difference stays within [2^53]. *)
Definition dayQuotient (c : Clock) (now : Z) : Z :=
  Qfloor (divide (inject_Z (localMidnight c now - epoch c)) (inject_Z 86400000)).

End DayQuotient.

(** ** The countdown of the closing screen: [calculateTimeLeft] *)
Module Countdown.
Import Text Display JsDouble.

(** [Math.floor(x % modulus).toString().padStart(2, '0')]. *)
Definition twoDigits (x : Q) (modulus : Z) : string :=
  padStart 2 "0" (Number_toString (Qfloor (rem x (inject_Z modulus)))).

(** Lines 143 to 146, for [diff = tomorrow - now] in milliseconds. *)
Definition calculateTimeLeft (diff : Z) : string :=
  let h := twoDigits (divide (inject_Z diff) (inject_Z (1000 * 60 * 60))) 24 in
  let m := twoDigits (divide (divide (inject_Z diff) 1000) 60) 60 in
  let s := twoDigits (divide (inject_Z diff) 1000) 60 in
  append h (append ":" (append m (append ":" s))).

End Countdown.

(** ** More sample data: pools, visits and the pages they end on *)
Module Cases.
Import Pool Session Json Samples.

(** A puzzle whose plain answer was stored with a capital and a space. *)
Definition spaced : puzzle :=
  Puzzle 9 "Sled" "Name the sled." "Kane" (Some "Rose Bud") None.

(** Twelve puzzles, ids 1 to 12. *)
Definition manyPuzzles : list puzzle := map plain (seqZ 1 12).

(** The set of [Samples.pool] on the day of [Samples.noon] in UTC. *)
Definition todaysFive : list (option Z) := [Some 4; Some 2; Some 1; Some 6; Some 12].

(** A visit that solves all five at the first attempt, and one that
    stops after a wrong guess and the hint on the first puzzle. *)
Definition allSolved : list event :=
  [Mount today noon; Commence; Acknowledge;
   TypeGuess "rosebud"; Submit; TypeGuess "rosebud"; Submit;
   TypeGuess "rosebud"; Submit; TypeGuess "rosebud"; Submit;
   TypeGuess "enigma"; Submit].

Definition hinted : list event :=
  [Mount today noon; Commence; Acknowledge; TypeGuess "x"; Submit; RevealHint].

Definition session (date puzzlesToday score history : string) : gmap string string :=
  <["gchq-history" := history]>
    (<["gchq-score" := score]>
       (<["gchq-puzzles-today" := puzzlesToday]>
          (<["gchq-date" := date]> ∅))).

Definition solvedWorld : world := {|
  store := session today "5" "500" "[100,100,100,100,100]";
  ui := {| gameState := done_for_day; puzzlesToday := 5; score := 500;
           scoreHistory := Arr [Num 100; Num 100; Num 100; Num 100; Num 100];
           todaysPuzzles := todaysFive; guess := EmptyString; status := idle;
           showHint := false; attempts := 0 |};
  mounted := true
|}.

Definition hintedWorld : world := {|
  store := session today "0" "0" "[]";
  ui := {| gameState := playing; puzzlesToday := 0; score := 0;
           scoreHistory := Arr [];
           todaysPuzzles := todaysFive; guess := EmptyString; status := idle;
           showHint := true; attempts := 1 |};
  mounted := true
|}.

End Cases.

(** * Properties *)

(** ** Numbers *)
Section NumberFacts.
Import JsNum.

Lemma rne53_exact x : Z.abs x <= 2 ^ 53 -> rne53 x = x.
Proof.
  intros H. unfold rne53. destruct (Z.leb_spec (Z.abs x) (2 ^ 53)); [done | lia].
Qed.

Lemma add_exact x y : Z.abs (x + y) <= 2 ^ 53 -> add x y = x + y.
Proof. apply rne53_exact. Qed.

Lemma ToUint32_range x : 0 <= ToUint32 x < 2 ^ 32.
Proof. unfold ToUint32. apply Z.mod_pos_bound. lia. Qed.

Lemma ToInt32_range x : - 2 ^ 31 <= ToInt32 x < 2 ^ 31.
Proof.
  unfold ToInt32. pose proof (Z.mod_pos_bound (x + 2 ^ 31) (2 ^ 32)). lia.
Qed.

Lemma ToInt32_mod x : ToInt32 x mod 2 ^ 32 = x mod 2 ^ 32.
Proof.
  unfold ToInt32.
  rewrite Zminus_mod, Zmod_mod, <- Zminus_mod. f_equal. lia.
Qed.

Lemma lxor_mod a b :
  Z.lxor a b mod 2 ^ 32 = Z.lxor (a mod 2 ^ 32) (b mod 2 ^ 32).
Proof.
  rewrite <- !Z.land_ones by lia. apply Z.bits_inj'. intros n Hn.
  rewrite !Z.land_spec, !Z.lxor_spec, !Z.land_spec.
  by destruct (Z.testbit a n), (Z.testbit b n), (Z.testbit (Z.ones 32) n).
Qed.

Lemma lor_mod a b :
  Z.lor a b mod 2 ^ 32 = Z.lor (a mod 2 ^ 32) (b mod 2 ^ 32).
Proof.
  rewrite <- !Z.land_ones by lia. apply Z.bits_inj'. intros n Hn.
  rewrite !Z.land_spec, !Z.lor_spec, !Z.land_spec.
  by destruct (Z.testbit a n), (Z.testbit b n), (Z.testbit (Z.ones 32) n).
Qed.

Lemma xor_mod a b :
  xor a b mod 2 ^ 32 = Z.lxor (a mod 2 ^ 32) (b mod 2 ^ 32).
Proof. unfold xor. by rewrite lxor_mod, !ToInt32_mod. Qed.

Lemma or_mod a b :
  or a b mod 2 ^ 32 = Z.lor (a mod 2 ^ 32) (b mod 2 ^ 32).
Proof. unfold or. by rewrite lor_mod, !ToInt32_mod. Qed.

Lemma imul_mod a b :
  imul a b mod 2 ^ 32 = (a mod 2 ^ 32 * (b mod 2 ^ 32)) mod 2 ^ 32.
Proof.
  unfold imul. rewrite ToInt32_mod, Zmult_mod, !ToInt32_mod. done.
Qed.

Lemma imul_range a b : - 2 ^ 31 <= imul a b < 2 ^ 31.
Proof. apply ToInt32_range. Qed.

Lemma ushr_range a k : 0 <= ushr a k < 2 ^ 32.
Proof.
  unfold ushr. pose proof (ToUint32_range a) as Ha.
  pose proof (Z.mod_pos_bound k 32 ltac:(lia)) as Hk.
  rewrite Z.shiftr_div_pow2 by lia. split.
  - apply Z.div_pos; lia.
  - apply Z.le_lt_trans with (ToUint32 a); [|lia].
    apply Z.div_le_upper_bound; [lia|].
    assert (1 <= 2 ^ (k mod 32)) by (apply (Z.pow_le_mono_r 2 0); lia). nia.
Qed.

Lemma ushr_mod a k : ushr a k mod 2 ^ 32 = ushr a k.
Proof. apply Z.mod_small, ushr_range. Qed.

End NumberFacts.

(** ** The generator *)
Section PrngFacts.
Import JsNum Prng Mulberry32.

Lemma mix_eq t :
  num32 (mix t) = mix32 (wrap t).
Proof.
  unfold mix, mix32, div_2_32, wrap. cbn [num32].
  set (t1 := imul (xor t (ushr t 15)) (or t 1)).
  assert (H1 : t1 mod 2 ^ 32 =
    (Z.lxor (t mod 2 ^ 32) (Z.shiftr (t mod 2 ^ 32) 15) * Z.lor (t mod 2 ^ 32) 1) mod 2 ^ 32).
  { unfold t1. rewrite imul_mod, xor_mod, or_mod, ushr_mod. done. }
  rewrite <- H1.
  set (i2 := imul (xor t1 (ushr t1 7)) (or t1 61)).
  assert (H2 : i2 mod 2 ^ 32 =
    (Z.lxor (t1 mod 2 ^ 32) (Z.shiftr (t1 mod 2 ^ 32) 7) * Z.lor (t1 mod 2 ^ 32) 61) mod 2 ^ 32).
  { unfold i2. rewrite imul_mod, xor_mod, or_mod, ushr_mod. done. }
  rewrite <- H2.
  assert (Hadd : add t1 i2 = t1 + i2).
  { apply add_exact. pose proof (imul_range (xor t (ushr t 15)) (or t 1)).
    pose proof (imul_range (xor t1 (ushr t1 7)) (or t1 61)). fold t1 in H. fold i2 in H0. lia. }
  rewrite Hadd.
  set (t2 := xor t1 (t1 + i2)).
  assert (H3 : t2 mod 2 ^ 32 =
    Z.lxor (t1 mod 2 ^ 32) ((t1 mod 2 ^ 32 + i2 mod 2 ^ 32) mod 2 ^ 32)).
  { unfold t2. rewrite xor_mod, <- Zplus_mod. done. }
  rewrite <- H3.
  change (ushr (xor t2 (ushr t2 14)) 0) with (Z.shiftr (xor t2 (ushr t2 14) mod 2 ^ 32) 0).
  rewrite Z.shiftr_0_r, xor_mod, ushr_mod. done.
Qed.

Lemma mix_range t : 0 <= num32 (mix t) < 2 ^ 32.
Proof.
  unfold mix, div_2_32. cbn [num32]. apply ushr_range.
Qed.

Lemma toQ_unit f : 0 <= num32 f < 2 ^ 32 -> (0 <= toQ f < 1)%Q.
Proof.
  intros [H0 H1]. unfold toQ, Qle, Qlt. cbn. lia.
Qed.

Lemma after_succ n g : after (N.succ n) g = advance (after n g).
Proof. unfold after. by rewrite N.iter_succ. Qed.

Lemma after_advance n g : after n (advance g) = advance (after n g).
Proof.
  induction n as [|n IH] using N.peano_ind; [done|].
  by rewrite !after_succ, IH.
Qed.

(** While the counter stays within the exactly represented integers it
    is the plain sum. *)
Lemma after_exact n g :
  - 2 ^ 53 <= seed g ->
  seed g + Z.of_N n * increment <= 2 ^ 53 ->
  seed (after n g) = seed g + Z.of_N n * increment.
Proof.
  intros Hlo. induction n as [|n IH] using N.peano_ind; intros Hhi.
  - cbn. lia.
  - rewrite after_succ. unfold advance. cbn [seed].
    assert (0 < increment) by done.
    rewrite IH by lia. rewrite add_exact by lia. lia.
Qed.

Lemma state32_eq s n : state32 s n = wrap (s + Z.of_N n * 0x6D2B79F5).
Proof.
  unfold state32. induction n as [|n IH] using N.peano_ind.
  - cbn [N.iter]. f_equal. lia.
  - rewrite N.iter_succ, IH. unfold next32, wrap.
    rewrite Zplus_mod_idemp_l. f_equal. lia.
Qed.

Lemma output_eq s n :
  output s n = mix (add (seed (after n (seededRandom s))) increment).
Proof. done. Qed.

Lemma output32_eq s n :
  output32 s n = Frac32 (mix32 (wrap (s + (Z.of_N n + 1) * 0x6D2B79F5))).
Proof.
  unfold output32, div_2_32. rewrite state32_eq. unfold next32, wrap.
  rewrite Zplus_mod_idemp_l. do 3 f_equal. lia.
Qed.

Lemma frac32_eq f g : num32 f = num32 g -> f = g.
Proof. destruct f, g. cbn. by intros ->. Qed.

(** The stream is restartable: what successive calls of one closure
    return is the position-indexed [output]. *)
Lemma draws_lookup n : forall k g,
  (k < n)%nat -> draws n g !! k = Some (fst (call (after (N.of_nat k) g))).
Proof.
  induction n as [|n IH]; intros k g Hk; [lia|].
  cbn [draws]. destruct (call g) as [r g'] eqn:E.
  destruct k as [|k].
  - change (Some r = Some (fst (call g))). by rewrite E.
  - change (draws n g' !! k = Some (fst (call (after (N.of_nat (S k)) g)))). rewrite IH by lia.
    replace g' with (advance g) by (by inversion E).
    rewrite Nat2N.inj_succ, after_succ, after_advance. done.
Qed.

End PrngFacts.

Section PrngContract.
Import JsNum Prng Mulberry32.

(** C2, as amended.  For every 32-bit seed [s] and every position [n] of
    the stream: the [n]-th number lies in [[0, 1)]; it is fixed by [s]
    and [n], being what the [n]-th call of any closure made from [s]
    returns; lines 8 to 10 compute it from the low 32 bits of the counter
    in 32-bit wrap-around arithmetic; and as long as the counter
    [s + (n + 1) * 0x6D2B79F5], which [seed += 0x6D2B79F5] accumulates as
    a double without wrapping, is at most [2^53], the number is the one
    the 32-bit wrap-around generator yields. *)
Theorem prng_contract (s : Z) (n : N) :
  - 2 ^ 31 <= s < 2 ^ 32 ->
  (0 <= toQ (output s n) < 1)%Q
  /\ (forall m, (N.to_nat n < m)%nat ->
        draws m (seededRandom s) !! N.to_nat n = Some (output s n))
  /\ num32 (output s n) = mix32 (wrap (seed (after (N.succ n) (seededRandom s))))
  /\ (s + (Z.of_N n + 1) * increment <= 2 ^ 53 -> output s n = output32 s n).
Proof.
  intros Hs. repeat split.
  - apply toQ_unit, mix_range.
  - apply toQ_unit, mix_range.
  - intros m Hm. rewrite draws_lookup by done. by rewrite N2Nat.id.
  - rewrite after_succ. apply mix_eq.
  - intros Hn. apply frac32_eq. rewrite output_eq, output32_eq, mix_eq.
    cbn [num32]. do 2 f_equal.
    assert (0 < increment) by done.
    rewrite after_exact; cbn [seed seededRandom]; [|lia|lia].
    rewrite add_exact by lia. unfold increment. lia.
Qed.

Lemma prng_contract_witness :
  (0 <= toQ (output 42 0) < 1)%Q
  /\ (forall m, (N.to_nat 0 < m)%nat ->
        draws m (seededRandom 42) !! N.to_nat 0 = Some (output 42 0))
  /\ num32 (output 42 0) = mix32 (wrap (seed (after (N.succ 0) (seededRandom 42))))
  /\ (42 + (Z.of_N 0 + 1) * increment <= 2 ^ 53 -> output 42 0 = output32 42 0).
Proof. apply (prng_contract 42 0). lia. Defined.

(** C2 as stated fails: from seed 42 the counter passes [2^53] at the
    call that returns number 4917758; the sum [9007199260973109] is
    rounded to the double [9007199260973108], and the number returned is
    not the one 32-bit wrap-around arithmetic gives. *)
Lemma prng_counter_leaves_32bit :
  - 2 ^ 31 <= 42 < 2 ^ 32
  /\ seed (after 4917759 (seededRandom 42)) = 9007199260973108
  /\ 42 + 4917759 * increment = 9007199260973109
  /\ num32 (output 42 4917758) = 2543212789
  /\ num32 (output32 42 4917758) = 2345769536
  /\ output 42 4917758 <> output32 42 4917758.
Proof.
  assert (E : seed (after 4917758 (seededRandom 42)) = 9007197429407296).
  { rewrite after_exact; cbn [seed seededRandom]; [done | lia | by vm_compute]. }
  split; [lia|]. split; [|split; [done|]].
  - change 4917759%N with (N.succ 4917758). rewrite after_succ.
    unfold advance. cbn [seed]. rewrite E. clear E. vm_compute. reflexivity.
  - rewrite output_eq, output32_eq, E. clear E. vm_compute.
    split; [reflexivity|]. split; [reflexivity|]. intros [=].
Qed.

End PrngContract.

(** ** The master order *)
Section ShuffleFacts.
Import JsNum Prng Pool Shuffle.

(** Rounding a non-negative integer moves it up by at most half a unit
    in the last place. *)
Lemma rne53_bounds x : 0 <= x -> 0 <= rne53 x <= x + x / 2 ^ 53.
Proof.
  intros Hx. unfold rne53. rewrite Z.abs_eq by done.
  assert (0 <= x / 2 ^ 53) by (apply Z.div_pos; lia).
  destruct (Z.leb_spec x (2 ^ 53)) as [Hs | Hb]; [lia|].
  rewrite Z.sgn_pos by lia.
  pose proof (Z.log2_spec x ltac:(lia)) as [Hlo Hhi].
  assert (HL : 53 <= Z.log2 x) by (apply Z.log2_le_pow2; lia).
  set (L := Z.log2 x) in *. set (e := L - 52).
  assert (He : 2 ^ e = 2 * 2 ^ (e - 1)).
  { rewrite <- Z.pow_succ_r by lia. f_equal. lia. }
  assert (Hh : 0 < 2 ^ (e - 1)) by (apply Z.pow_pos_nonneg; lia).
  assert (HhL : 2 ^ (e - 1) * 2 ^ 53 = 2 ^ L).
  { rewrite <- Z.pow_add_r by lia. f_equal. lia. }
  assert (Hhalf : 2 ^ (e - 1) <= x / 2 ^ 53).
  { apply Z.div_le_lower_bound; lia. }
  pose proof (Z.div_mod x (2 ^ e) ltac:(lia)) as Hdm.
  pose proof (Z.mod_pos_bound x (2 ^ e) ltac:(lia)) as Hr.
  assert (0 <= x / 2 ^ e) by (apply Z.div_pos; lia).
  set (q := x / 2 ^ e) in *. set (r := x mod 2 ^ e) in *.
  set (h := 2 ^ (e - 1)) in *. set (p := 2 ^ e) in *.
  destruct (Z.ltb_spec h r); cbn [orb].
  - nia.
  - destruct (Z.eqb_spec r h); cbn [andb]; [destruct (Z.odd q)|]; nia.
Qed.

(** The index drawn for position [i] is at most [i], for an array of
    any length. *)
Lemma draw_in_range r i :
  0 <= num32 r < 2 ^ 32 -> (pick r i <= i)%nat.
Proof.
  intros [H0 H1]. unfold pick, floor, mul_int. cbn [num32].
  set (k := Z.of_nat i + 1). set (u := num32 r) in *.
  assert (Hk : 1 <= k) by lia.
  pose proof (rne53_bounds (u * k) ltac:(nia)) as [Hlo Hhi].
  assert (Hd : u * k / 2 ^ 53 <= k - 1).
  { apply Z.lt_succ_r. apply Z.div_lt_upper_bound; [lia|]. nia. }
  assert (rne53 (u * k) / 2 ^ 32 < k).
  { apply Z.div_lt_upper_bound; [lia|]. nia. }
  assert (0 <= rne53 (u * k) / 2 ^ 32) by (apply Z.div_pos; lia).
  lia.
Qed.

(** For arrays of up to [2^21] entries the product [r * (i + 1)] is
    exact, and [j] is the floor of the real product. *)
Lemma pick_exact r i :
  0 <= num32 r < 2 ^ 32 -> Z.of_nat i < 2 ^ 21 ->
  Z.of_nat (pick r i) = num32 r * (Z.of_nat i + 1) / 2 ^ 32.
Proof.
  intros [H0 H1] Hi. unfold pick, floor, mul_int. cbn [num32].
  rewrite rne53_exact by (rewrite Z.abs_eq; nia).
  rewrite Z2Nat.id; [done|]. apply Z.div_pos; [nia | lia].
Qed.

Lemma insert_perm (l : list Z) i x y :
  l !! i = Some y -> y :: <[i := x]> l ≡ₚ x :: l.
Proof.
  revert i. induction l as [|a l IH]; intros [|i] H; try done.
  - cbn in H. injection H as ->. cbn. apply perm_swap.
  - cbn in H. cbn [insert list_insert].
    change (y :: a :: <[i:=x]> l ≡ₚ x :: a :: l).
    rewrite (perm_swap a y), (IH _ H). apply perm_swap.
Qed.

Lemma swap_perm ids i j : swap ids i j ≡ₚ ids.
Proof.
  unfold swap. destruct (ids !! j) as [x|] eqn:Hj; [|done].
  destruct (ids !! i) as [y|] eqn:Hi; [|done].
  assert (H2 : <[i := x]> ids !! j = Some x).
  { destruct (decide (i = j)) as [->|Hne].
    - apply list_lookup_insert_eq. by eapply lookup_lt_Some.
    - by rewrite list_lookup_insert_ne. }
  apply (Permutation_cons_inv (a := x)).
  rewrite (insert_perm _ _ y x H2). rewrite (insert_perm _ _ x y Hi). done.
Qed.

Lemma swap_length ids i j : length (swap ids i j) = length ids.
Proof.
  unfold swap. destruct (ids !! j), (ids !! i); try done.
  by rewrite !length_insert.
Qed.

Lemma swap_spec ids i j : swap ids i j = FisherYates.swap_positions ids i j.
Proof.
  unfold swap, FisherYates.swap_positions.
  destruct (ids !! j) as [x|] eqn:Hj, (ids !! i) as [y|] eqn:Hi; try done.
  destruct (decide (i = j)) as [->|Hne].
  - congruence.
  - symmetry. by apply list_insert_insert_ne.
Qed.

Lemma shuffle_loop_perm i g ids : shuffle_loop i g ids ≡ₚ ids.
Proof.
  revert g ids. induction i as [|i IH]; intros g ids; [done|].
  cbn [shuffle_loop]. destruct (call g) as [r g'].
  rewrite IH. apply swap_perm.
Qed.

Lemma shuffle_loop_spec s len i : forall k ids,
  (k + i = len - 1)%nat ->
  shuffle_loop i (after (N.of_nat k) (seededRandom s)) ids
  = fold_left (FisherYates.step s len) (seq k i) ids.
Proof.
  induction i as [|i IH]; intros k ids Hk; [done|].
  cbn [shuffle_loop seq fold_left].
  destruct (call (after (N.of_nat k) (seededRandom s))) as [r g'] eqn:E.
  assert (Hr : r = output s (N.of_nat k)) by (unfold output; by rewrite E).
  assert (Hg : g' = after (N.of_nat (S k)) (seededRandom s)).
  { rewrite Nat2N.inj_succ, after_succ. by inversion E. }
  rewrite Hg, IH by lia. f_equal.
  unfold FisherYates.step. rewrite <- swap_spec, Hr.
  replace (len - 1 - k)%nat with (S i) by lia. done.
Qed.

(** C1.  For every pool, [getMasterPuzzleList] (seed 42) is the
    Fisher-Yates shuffle of the specification: [i] runs from
    [length - 1] down to [1], step [k] draws the [k]-th number [r] of the
    stream, takes [j = floor(r * (i + 1))], which is at most [i], and
    swaps positions [i] and [j].  The result is a permutation of the
    pool's identifiers and depends on nothing but them, so two
    invocations return the same order. *)
Theorem master_order_is_fisher_yates (puzzles : list puzzle) :
  let ids := map id puzzles in
  getMasterPuzzleList puzzles = FisherYates.build ids 42
  /\ (forall i, pick (output 42 (N.of_nat (length ids - 1 - i))) i <= i)%nat
  /\ getMasterPuzzleList puzzles ≡ₚ ids
  /\ (forall puzzles', map id puzzles' = ids ->
        getMasterPuzzleList puzzles' = getMasterPuzzleList puzzles).
Proof.
  intros ids. repeat split.
  - unfold getMasterPuzzleList, FisherYates.build. fold ids.
    apply (shuffle_loop_spec 42 (length ids) (length ids - 1) 0). lia.
  - intros i. apply draw_in_range, mix_range.
  - apply shuffle_loop_perm.
  - intros puzzles' H. unfold getMasterPuzzleList. by rewrite H.
Qed.

End ShuffleFacts.

(** ** The daily set *)
Section SelectFacts.
Import Pool Shuffle DayIndex Select.

Lemma todaysIdsAt_slots d order :
  todaysIdsAt d order = map (slot d order) [0; 1; 2; 3; 4].
Proof. done. Qed.

Lemma slot_lookup d (order : list Z) k :
  0 <= d -> 0 <= k -> order <> [] ->
  slot d order k = order !! Z.to_nat ((d * 5 + k) mod Z.of_nat (length order)).
Proof.
  intros Hd Hk Hne. unfold slot, js_rem, array_get.
  assert (0 < Z.of_nat (length order)) by (destruct order; [done | cbn; lia]).
  destruct (Z.eqb_spec (Z.of_nat (length order)) 0); [lia|].
  rewrite Z.rem_mod_nonneg by lia.
  pose proof (Z.mod_pos_bound (d * 5 + k) (Z.of_nat (length order)) ltac:(lia)).
  destruct (Z.leb_spec 0 ((d * 5 + k) mod Z.of_nat (length order))); [done | lia].
Qed.

Lemma window_index_bound d k len :
  0 < len -> (Z.to_nat ((d * 5 + k) mod len) < Z.to_nat len)%nat.
Proof. intros H. pose proof (Z.mod_pos_bound (d * 5 + k) len H). lia. Qed.

(** Two slots of one day read different positions once the order has
    five entries. *)
Lemma window_index_inj d k1 k2 len :
  5 <= len -> 0 <= k1 < 5 -> 0 <= k2 < 5 ->
  (d * 5 + k1) mod len = (d * 5 + k2) mod len -> k1 = k2.
Proof.
  intros Hlen H1 H2 E.
  assert (Hd : (k1 - k2) mod len = 0).
  { replace (k1 - k2) with ((d * 5 + k1) - (d * 5 + k2)) by lia.
    rewrite Zminus_mod, E, Z.sub_diag. apply Z.mod_0_l. lia. }
  apply Z.mod_divide in Hd; [|lia]. destruct Hd as [c Hc].
  assert (c = 0) by nia. lia.
Qed.

Lemma slot_some d (order : list Z) k :
  0 <= d -> 0 <= k -> order <> [] ->
  exists x,
    slot d order k = Some x /\ x ∈ order
    /\ order !! Z.to_nat ((d * 5 + k) mod Z.of_nat (length order)) = Some x.
Proof.
  intros Hd Hk Hne. rewrite slot_lookup by done.
  assert (0 < Z.of_nat (length order)) by (destruct order; [done | cbn; lia]).
  pose proof (window_index_bound d k _ H) as Hb. rewrite Nat2Z.id in Hb.
  apply lookup_lt_is_Some in Hb as [x Hx]. exists x. repeat split; try done.
  by eapply list_elem_of_lookup_2.
Qed.

(** The window of any non-empty order without repeated entries. *)
Lemma window_of_order d (order : list Z) :
  0 <= d -> order <> [] ->
  exists ids : list Z,
    todaysIdsAt d order = map Some ids
    /\ length ids = 5%nat
    /\ (forall k, (k < 5)%nat ->
          ids !! k = order !! Z.to_nat ((d * 5 + Z.of_nat k) mod Z.of_nat (length order))
          /\ is_Some (ids !! k))
    /\ (forall x, x ∈ ids -> x ∈ order)
    /\ (NoDup order -> (5 <= length order)%nat -> NoDup ids).
Proof.
  intros Hd Hne.
  destruct (slot_some d order 0) as (x0 & S0 & M0 & L0); try done.
  destruct (slot_some d order 1) as (x1 & S1 & M1 & L1); try done.
  destruct (slot_some d order 2) as (x2 & S2 & M2 & L2); try done.
  destruct (slot_some d order 3) as (x3 & S3 & M3 & L3); try done.
  destruct (slot_some d order 4) as (x4 & S4 & M4 & L4); try done.
  exists [x0; x1; x2; x3; x4].
  assert (Hlook : forall k, (k < 5)%nat ->
    [x0; x1; x2; x3; x4] !! k
    = order !! Z.to_nat ((d * 5 + Z.of_nat k) mod Z.of_nat (length order))
    /\ is_Some ([x0; x1; x2; x3; x4] !! k)).
  { intros k Hk. do 5 (destruct k as [|k]; [cbn [lookup list_lookup Z.of_nat]; split; [by symmetry | by eexists]|]). lia. }
  repeat split.
  - rewrite todaysIdsAt_slots. cbn [map]. by rewrite S0, S1, S2, S3, S4.
  - apply Hlook; done.
  - apply Hlook; done.
  - intros x Hx.
    repeat (apply elem_of_cons in Hx as [-> | Hx]; [done|]).
    by apply elem_of_nil in Hx.
  - intros Hnd Hlen. apply NoDup_alt. intros i j x Hi Hj.
    assert (Hi5 : (i < 5)%nat) by (apply lookup_lt_Some in Hi; cbn in Hi; lia).
    assert (Hj5 : (j < 5)%nat) by (apply lookup_lt_Some in Hj; cbn in Hj; lia).
    destruct (Hlook i Hi5) as [Ei _]. destruct (Hlook j Hj5) as [Ej _].
    rewrite Ei in Hi. rewrite Ej in Hj.
    pose proof (NoDup_lookup _ _ _ _ Hnd Hi Hj) as E.
    assert (0 < Z.of_nat (length order)) by lia.
    pose proof (Z.mod_pos_bound (d * 5 + Z.of_nat i) _ H).
    pose proof (Z.mod_pos_bound (d * 5 + Z.of_nat j) _ H).
    apply Z2Nat.inj in E; [|lia|lia].
    apply window_index_inj in E; lia.
Qed.

(** C4.  For every day offset [d >= 0] and every non-empty pool, the
    selector applied to the master order returns exactly five defined
    identifiers; slot [k] holds [order[(d * 5 + k) mod length(order)]];
    each identifier belongs to the pool; and, the pool's identifiers
    being distinct, two slots can hold the same identifier only when the
    pool has fewer than five puzzles. *)
Theorem daily_set_window (puzzles : list puzzle) (d : Z) :
  0 <= d -> puzzles <> [] ->
  let order := getMasterPuzzleList puzzles in
  exists ids : list Z,
    (forall c now, getDayIndex c now = d ->
       getTodaysPuzzles c now order = map Some ids)
    /\ length ids = 5%nat
    /\ (forall k, (k < 5)%nat ->
          ids !! k = order !! Z.to_nat ((d * 5 + Z.of_nat k) mod Z.of_nat (length order))
          /\ is_Some (ids !! k))
    /\ (forall x, x ∈ ids -> x ∈ map id puzzles)
    /\ (NoDup (map id puzzles) -> ~ NoDup ids -> (length puzzles < 5)%nat).
Proof.
  intros Hd Hne order.
  assert (Hperm : order ≡ₚ map id puzzles) by apply shuffle_loop_perm.
  assert (Hlen : length order = length puzzles).
  { by rewrite Hperm, length_map. }
  assert (Hone : order <> []).
  { intros E. rewrite E in Hlen. destruct puzzles; done. }
  destruct (window_of_order d order Hd Hone) as (ids & Hw & H5 & Hk & Hm & Hnd).
  exists ids. repeat split; try done.
  - intros c now <-. done.
  - apply Hk; done.
  - apply Hk; done.
  - intros x Hx. rewrite <- Hperm. by apply Hm.
  - intros Hu Hrep. destruct (le_lt_dec 5 (length puzzles)) as [Hge|]; [|done].
    exfalso. apply Hrep, Hnd; [by rewrite Hperm | lia].
Qed.

Lemma daily_set_window_witness :
  let puzzles := Samples.pool in
  let order := getMasterPuzzleList puzzles in
  exists ids : list Z,
    (forall c now, getDayIndex c now = 3 ->
       getTodaysPuzzles c now order = map Some ids)
    /\ length ids = 5%nat
    /\ (forall k, (k < 5)%nat ->
          ids !! k = order !! Z.to_nat ((3 * 5 + Z.of_nat k) mod Z.of_nat (length order))
          /\ is_Some (ids !! k))
    /\ (forall x, x ∈ ids -> x ∈ map id puzzles)
    /\ (NoDup (map id puzzles) -> ~ NoDup ids -> (length puzzles < 5)%nat).
Proof.
  apply (daily_set_window Samples.pool 3); [lia | done].
Defined.

(** A pool of seven on day offset 3: positions 15 to 19 modulo 7 of the
    master order, in that order. *)
Example window_of_seven :
  getMasterPuzzleList Samples.pool = [4; 2; 1; 6; 12; 3; 5]
  /\ todaysIdsAt 3 (getMasterPuzzleList Samples.pool)
     = [Some 2; Some 1; Some 6; Some 12; Some 3].
Proof. by vm_compute. Qed.

End SelectFacts.

(** ** Decimal texts and JSON texts *)
Section TextFacts.
Import Outcome Text Json.

Lemma append_cons ch (a b : string) : append (String ch a) b = String ch (append a b).
Proof. reflexivity. Qed.

Lemma append_nil (b : string) : append EmptyString b = b.
Proof. reflexivity. Qed.

Lemma append_assoc (a b c : string) : append (append a b) c = append a (append b c).
Proof. induction a as [|ch a IH]; [done | by rewrite !append_cons, IH]. Qed.

Lemma append_empty_r (a : string) : append a EmptyString = a.
Proof. induction a as [|ch a IH]; [done | by rewrite append_cons, IH]. Qed.

Lemma run_append st a b : run st (append a b) = run (run st a) b.
Proof.
  revert st. induction a as [|ch a IH]; intros st; [done|].
  rewrite append_cons. cbn [run]. apply IH.
Qed.

Lemma to_uint_leading p : leadingDigit (Pos.to_uint p).
Proof.
  assert (E : Pos.to_uint p = Decimal.nzhead (Pos.to_uint p)).
  { pose proof (DecimalPos.Unsigned.to_of (Pos.to_uint p)) as H.
    rewrite DecimalPos.Unsigned.of_to in H. cbn [N.to_uint] in H.
    rewrite H at 1. apply unorm_nzhead. intros Hnil.
    apply unorm_0 in Hnil. rewrite <- H in Hnil.
    by apply DecimalPos.Unsigned.to_uint_nonzero in Hnil. }
  pose proof (nzhead_nonzero (Pos.to_uint p)) as Hnz.
  pose proof (DecimalPos.Unsigned.to_uint_nonnil p) as Hnn.
  rewrite <- E in Hnz.
  destruct (Pos.to_uint p); try constructor; [done | by destruct (Hnz u)].
Qed.

Lemma decimalValue_print d :
  decimalValue (NilEmpty.string_of_uint d) = Z.of_N (Pos.of_uint d).
Proof. unfold decimalValue. by rewrite NilEmpty.usu. Qed.

Lemma decimalValue_pos p :
  decimalValue (NilEmpty.string_of_uint (Pos.to_uint p)) = Z.pos p.
Proof. by rewrite decimalValue_print, DecimalPos.Unsigned.of_to. Qed.

Lemma Number_toString_pos p :
  Number_toString (Z.pos p) = NilEmpty.string_of_uint (Pos.to_uint p).
Proof.
  unfold Number_toString. cbn.
  pose proof (DecimalPos.Unsigned.to_uint_nonnil p). by destruct (Pos.to_uint p).
Qed.

Lemma Number_toString_neg p :
  Number_toString (Z.neg p) = String "-" (NilEmpty.string_of_uint (Pos.to_uint p)).
Proof.
  unfold Number_toString. cbn.
  pose proof (DecimalPos.Unsigned.to_uint_nonnil p). by destruct (Pos.to_uint p).
Qed.

Lemma step_digit c neg acc ch :
  isDigit ch = true ->
  step (Digits c neg acc) ch = Digits c neg (append acc (String ch EmptyString)).
Proof. intros H. unfold step. by rewrite H. Qed.

Lemma digits_run c neg d : forall acc rest,
  run (Digits c neg acc) (append (NilEmpty.string_of_uint d) rest)
  = run (Digits c neg (append acc (NilEmpty.string_of_uint d))) rest.
Proof.
  induction d; intros acc rest; cbn [NilEmpty.string_of_uint];
    rewrite ?append_nil, ?append_empty_r; try done;
    rewrite append_cons; cbn [run]; rewrite step_digit by done;
    rewrite IHd, append_assoc; done.
Qed.

Lemma start_number c first d rest :
  leadingDigit d ->
  run (Value c first) (append (NilEmpty.string_of_uint d) rest)
  = run (Digits c false (NilEmpty.string_of_uint d)) rest.
Proof.
  destruct 1; cbn [NilEmpty.string_of_uint]; rewrite append_cons; cbn [run];
    match goal with
    | |- run (step _ ?ch) _ = _ =>
        change (step (Value c first) ch) with (Digits c false (String ch EmptyString))
    end; by rewrite digits_run.
Qed.

Lemma start_negative c first d rest :
  leadingDigit d ->
  run (Value c first) (String "-" (append (NilEmpty.string_of_uint d) rest))
  = run (Digits c true (NilEmpty.string_of_uint d)) rest.
Proof.
  intros H. cbn [run].
  change (step (Value c first) "-") with (Minus c).
  destruct H; cbn [NilEmpty.string_of_uint]; rewrite append_cons; cbn [run];
    match goal with
    | |- run (step _ ?ch) _ = _ =>
        change (step (Minus c) ch) with (Digits c true (String ch EmptyString))
    end; by rewrite digits_run.
Qed.

(** Reading one printed element of an array, up to the comma or the
    bracket that follows it. *)
Lemma read_scalar x acc first ch rest :
  exact x -> ch = ","%char \/ ch = "]"%char ->
  run (Value (Items acc) first) (append (stringifyScalar x) (String ch rest))
  = run (between_tokens (After (acc ++ [x])) ch) rest.
Proof.
  intros Hx Hch. destruct x as [|[|]|[|p|p]]; cbn [stringifyScalar].
  - destruct Hch as [-> | ->]; reflexivity.
  - destruct Hch as [-> | ->]; reflexivity.
  - destruct Hch as [-> | ->]; reflexivity.
  - destruct Hch as [-> | ->]; reflexivity.
  - rewrite Number_toString_pos, start_number by apply to_uint_leading.
    cbn [run]. cbn in Hx.
    assert (E : step (Digits (Items acc) false (NilEmpty.string_of_uint (Pos.to_uint p))) ch
                = between_tokens (After (acc ++ [Num (Z.pos p)])) ch).
    { transitivity (between_tokens
        (finishNumber (Items acc) false (NilEmpty.string_of_uint (Pos.to_uint p))) ch).
      - destruct Hch as [-> | ->]; reflexivity.
      - unfold finishNumber. rewrite decimalValue_pos.
        destruct (Z.leb_spec (Z.pos p) (2 ^ 53)); [done | lia]. }
    by rewrite E.
  - rewrite Number_toString_neg, append_cons, start_negative by apply to_uint_leading.
    cbn [run]. cbn in Hx.
    assert (E : step (Digits (Items acc) true (NilEmpty.string_of_uint (Pos.to_uint p))) ch
                = between_tokens (After (acc ++ [Num (Z.neg p)])) ch).
    { transitivity (between_tokens
        (finishNumber (Items acc) true (NilEmpty.string_of_uint (Pos.to_uint p))) ch).
      - destruct Hch as [-> | ->]; reflexivity.
      - unfold finishNumber. rewrite decimalValue_pos.
        destruct (Z.leb_spec (Z.pos p) (2 ^ 53)); [done | lia]. }
    by rewrite E.
Qed.

Lemma read_elements xs : forall x acc first,
  Forall exact (x :: xs) ->
  run (Value (Items acc) first)
      (append (joinComma (map stringifyScalar (x :: xs))) "]")
  = End (Arr (acc ++ x :: xs)).
Proof.
  induction xs as [|y ys IH]; intros x acc first Hex.
  - cbn [map joinComma]. rewrite read_scalar; [done | by inversion Hex | by right].
  - change (joinComma (map stringifyScalar (x :: y :: ys)))
      with (append (stringifyScalar x)
              (String "," (joinComma (map stringifyScalar (y :: ys))))).
    rewrite append_assoc, append_cons.
    rewrite read_scalar; [| by inversion Hex | by left].
    change (between_tokens (After (acc ++ [x])) ",") with (Value (Items (acc ++ [x])) false).
    rewrite IH by (by inversion Hex). by rewrite <- app_assoc.
Qed.

(** Round trip: what [JSON.stringify] prints for an array of exact
    scalars, [JSON.parse] reads back. *)
Lemma parse_stringify_array items :
  Forall exact items -> parse (stringify (Arr items)) = Done (Arr items).
Proof.
  intros Hex. unfold parse, stringify. cbn [run].
  change (step (Value Top false) "[") with (Value (Items []) true).
  destruct items as [|x xs]; [done|].
  by rewrite read_elements.
Qed.

Lemma spanDigits_print d :
  spanDigits (NilEmpty.string_of_uint d) = (NilEmpty.string_of_uint d, EmptyString).
Proof. induction d; cbn; [done | by rewrite IHd ..]. Qed.

(** Round trip: [parseInt(String(n), 10)] is [n] for an exact integer. *)
Lemma parseInt10_toString z :
  Z.abs z <= 2 ^ 53 -> parseInt10 (Number_toString z) = Done (Some z).
Proof.
  intros Hz. destruct z as [|p|p].
  - done.
  - rewrite Number_toString_pos. pose proof (to_uint_leading p) as Hl.
    assert (E : parseDigits (NilEmpty.string_of_uint (Pos.to_uint p)) = Done (Some (Z.pos p))).
    { unfold parseDigits. rewrite spanDigits_print, decimalValue_pos.
      destruct (Z.leb_spec (Z.pos p) (2 ^ 53)); [|lia].
      by destruct Hl. }
    rewrite <- E. by destruct Hl.
  - rewrite Number_toString_neg. pose proof (to_uint_leading p) as Hl.
    assert (E : parseDigits (NilEmpty.string_of_uint (Pos.to_uint p)) = Done (Some (Z.pos p))).
    { unfold parseDigits. rewrite spanDigits_print, decimalValue_pos.
      destruct (Z.leb_spec (Z.pos p) (2 ^ 53)); [|lia].
      by destruct Hl. }
    unfold parseInt10. cbn [trimStart]. 
    change (isWhiteSpace "-") with false. cbn match.
    change (Ascii.eqb "-" "-") with true. cbn match. by rewrite E.
Qed.

End TextFacts.

(** ** The day index *)
Section DayIndexFacts.
Import DayIndex.

Lemma getDayIndex_nonneg c now :
  civil c -> epoch c <= now -> 0 <= getDayIndex c now.
Proof.
  intros Hc Hnow. unfold getDayIndex, msPerDay.
  apply Z.div_pos; [|lia].
  pose proof (midnight_mono c Hc _ _ Hnow). rewrite (epoch_midnight c Hc) in H. lia.
Qed.

Lemma getDayIndex_mono c t u :
  civil c -> t <= u -> getDayIndex c t <= getDayIndex c u.
Proof.
  intros Hc Htu. unfold getDayIndex, msPerDay.
  apply Z.div_le_mono; [lia|]. pose proof (midnight_mono c Hc _ _ Htu). lia.
Qed.

Lemma fixedZone_civil off : civil (fixedZone off).
Proof.
  split; cbn [fixedZone localMidnight epoch]; unfold msPerDay.
  - intros t. pose proof (Z.mul_div_le (t + off) 86400000 ltac:(lia)). lia.
  - intros t u Htu.
    pose proof (Z.div_le_mono (t + off) (u + off) 86400000 ltac:(lia) ltac:(lia)). nia.
  - replace (1704067200000 - off + off) with (19723 * 86400000) by lia.
    rewrite Z.div_mul by lia. lia.
Qed.

(** Where every local day lasts 24 hours the index goes up by one at
    each local midnight. *)
Lemma fixedZone_boundary off m :
  localMidnight (fixedZone off) m = m ->
  getDayIndex (fixedZone off) m = getDayIndex (fixedZone off) (m - 1) + 1.
Proof.
  unfold getDayIndex. cbn [fixedZone localMidnight epoch]. unfold msPerDay.
  intros Hm.
  set (q := (m + off) / 86400000) in *.
  assert (Hq : m + off = q * 86400000) by lia.
  assert (Hp : (m - 1 + off) / 86400000 = q - 1).
  { symmetry. apply (Z.div_unique _ _ _ 86399999); lia. }
  rewrite Hp.
  replace ((q - 1) * 86400000 - off - (1704067200000 - off))
    with ((q - 19724) * 86400000) by lia.
  replace (q * 86400000 - off - (1704067200000 - off))
    with ((q - 19723) * 86400000) by lia.
  rewrite !Z.div_mul by lia. lia.
Qed.

Lemma NewYork_offset_cases t :
  (NewYork.offset t = -4 * NewYork.hour
   /\ NewYork.dst_start <= t < NewYork.dst_end)
  \/ (NewYork.offset t = -5 * NewYork.hour
      /\ (t < NewYork.dst_start \/ NewYork.dst_end <= t)).
Proof.
  unfold NewYork.offset.
  destruct (Z.leb_spec NewYork.dst_start t), (Z.ltb_spec t NewYork.dst_end);
    cbn; lia.
Qed.

Lemma NewYork_midnight_cases t :
  let wall := (t + NewYork.offset t) / msPerDay * msPerDay in
  (NewYork.midnight t = wall + 5 * NewYork.hour
   /\ NewYork.offset (wall + 5 * NewYork.hour) = -5 * NewYork.hour)
  \/ (NewYork.midnight t = wall + 4 * NewYork.hour
      /\ NewYork.offset (wall + 5 * NewYork.hour) = -4 * NewYork.hour).
Proof.
  intros wall. unfold NewYork.midnight. fold wall.
  destruct (NewYork_offset_cases (wall + 5 * NewYork.hour)) as [[E _]|[E _]];
    rewrite E; [right | left]; by split.
Qed.

Ltac NewYork_regions :=
  unfold NewYork.dst_start, NewYork.dst_end, NewYork.jan1_utc, NewYork.hour,
    msPerDay in *;
  Z.to_euclidean_division_equations; lia.

Lemma NewYork_midnight_le t : NewYork.midnight t <= t.
Proof.
  destruct (NewYork_midnight_cases t) as [[E O]|[E O]]; rewrite E; clear E;
  destruct (NewYork_offset_cases t) as [[E1 H1]|[E1 H1]];
    rewrite E1 in *; clear E1;
  match type of O with
  | NewYork.offset ?x = _ =>
      destruct (NewYork_offset_cases x) as [[E3 H3]|[E3 H3]]
  end;
  try (exfalso; rewrite E3 in O; by vm_compute in O); clear O E3;
  NewYork_regions.
Qed.

Lemma NewYork_midnight_mono t u :
  t <= u -> NewYork.midnight t <= NewYork.midnight u.
Proof.
  intros Htu.
  destruct (NewYork_midnight_cases t) as [[E O]|[E O]]; rewrite E; clear E;
  destruct (NewYork_midnight_cases u) as [[E' O']|[E' O']]; rewrite E'; clear E';
  destruct (NewYork_offset_cases t) as [[E1 H1]|[E1 H1]];
    rewrite E1 in *; clear E1;
  destruct (NewYork_offset_cases u) as [[E2 H2]|[E2 H2]];
    rewrite E2 in *; clear E2;
  match type of O with
  | NewYork.offset ?x = _ =>
      destruct (NewYork_offset_cases x) as [[E3 H3]|[E3 H3]]
  end;
  try (exfalso; rewrite E3 in O; by vm_compute in O);
  match type of O' with
  | NewYork.offset ?x = _ =>
      destruct (NewYork_offset_cases x) as [[E4 H4]|[E4 H4]]
  end;
  try (exfalso; rewrite E4 in O'; by vm_compute in O'); clear O O' E3 E4;
  NewYork_regions.
Qed.

(** The New York clock is a clock like any other: the failure below is
    not an artefact of an ill-formed zone. *)
Lemma NewYork_civil : civil NewYork.clock.
Proof.
  split; [apply NewYork_midnight_le | apply NewYork_midnight_mono | by vm_compute].
Qed.

(** C3: the code breaks the claim in a zone with daylight saving time.
    In America/New_York the day that starts at 2024-03-11T00:00 local
    (time value 1710129600000, a local midnight after the epoch) has the
    index 69 of the day before it: the index does not go up at that
    midnight.  At 2024-11-04T00:00 local (1730696400000) it goes from
    306 to 308. *)
Theorem day_index_stalls_after_spring_forward :
  civil NewYork.clock
  /\ epoch NewYork.clock <= 1710129600000 - 1
  /\ localMidnight NewYork.clock 1710129600000 = 1710129600000
  /\ getDayIndex NewYork.clock (1710129600000 - 1) = 69
  /\ getDayIndex NewYork.clock 1710129600000 = 69
  /\ localMidnight NewYork.clock 1730696400000 = 1730696400000
  /\ getDayIndex NewYork.clock (1730696400000 - 1) = 306
  /\ getDayIndex NewYork.clock 1730696400000 = 308.
Proof. split; [apply NewYork_civil|]. vm_compute. by repeat split. Qed.

End DayIndexFacts.

(** ** Verification and scoring *)
Section VerifyFacts.
Import Text Pool Verify Scoring.

Lemma lowerUnit_idem c : lowerUnit (lowerUnit c) = lowerUnit c.
Proof. by destruct c as [[] [] [] [] [] [] [] []]. Qed.

Lemma lowerUnit_space c : isWhiteSpace (lowerUnit c) = isWhiteSpace c.
Proof. by destruct c as [[] [] [] [] [] [] [] []]. Qed.


Lemma toLowerCase_append a b :
  toLowerCase (append a b) = append (toLowerCase a) (toLowerCase b).
Proof.
  induction a as [|c a IH]; [done|].
  rewrite append_cons. cbn [toLowerCase]. by rewrite append_cons, IH.
Qed.

(** The normalized guess holds no white space and no capital. *)
Lemma cleanGuess_normal guess :
  removeWhiteSpace (cleanGuess guess) = cleanGuess guess
  /\ toLowerCase (cleanGuess guess) = cleanGuess guess.
Proof.
  unfold cleanGuess. induction guess as [|c s [IH1 IH2]]; [done|].
  cbn [toLowerCase removeWhiteSpace].
  destruct (isWhiteSpace (lowerUnit c)) eqn:E; [done|].
  cbn [toLowerCase removeWhiteSpace]. by rewrite E, lowerUnit_idem, IH1, IH2.
Qed.

Lemma hexByte_lower b : toLowerCase (hexByte b) = hexByte b.
Proof. by destruct b. Qed.

Lemma join_hex_lower bs : toLowerCase (join (map hexByte bs)) = join (map hexByte bs).
Proof.
  induction bs as [|b bs IH]; [done|].
  cbn [map join]. by rewrite toLowerCase_append, hexByte_lower, IH.
Qed.

(** C5, as amended.  The guess is normalized by lowercasing and by
    removing all white space.  If the puzzle has a non-empty
    [answerHash], the result is true exactly when [hashGuess] of the
    normalized guess, the lowercase hexadecimal text of the digest (or
    ["error"] when the digest fails), is the very same string as the
    stored [answerHash]: the comparison is case-sensitive.  Otherwise
    the result is true exactly when the normalized guess is the stored
    [answer]. *)
Theorem verify_compares_exactly
    (digest : list Byte.byte -> option (list Byte.byte))
    (guess : string) (p : puzzle) :
  let clean := removeWhiteSpace (toLowerCase guess) in
  removeWhiteSpace clean = clean /\ toLowerCase clean = clean
  /\ (truthy (answerHash p) = true ->
        (isCorrect digest guess p = true
         <-> answerHash p = Some (hashGuess digest clean)))
  /\ (truthy (answerHash p) = false ->
        (isCorrect digest guess p = true <-> answer p = Some clean))
  /\ (forall hashArray, digest (encode clean) = Some hashArray ->
        hashGuess digest clean = join (map hexByte hashArray)
        /\ toLowerCase (hashGuess digest clean) = hashGuess digest clean)
  /\ (digest (encode clean) = None -> hashGuess digest clean = "error"%string).
Proof.
  intros clean. destruct (cleanGuess_normal guess) as [N1 N2].
  split; [done|]. split; [done|]. repeat split.
  - unfold isCorrect. fold (cleanGuess guess). intros E. rewrite H in E.
    by apply bool_decide_eq_true in E.
  - unfold isCorrect. fold (cleanGuess guess). rewrite H. intros E.
    apply bool_decide_eq_true. by rewrite E.
  - unfold isCorrect. fold (cleanGuess guess). intros E. rewrite H in E.
    by apply bool_decide_eq_true in E.
  - unfold isCorrect. fold (cleanGuess guess). rewrite H. intros E.
    apply bool_decide_eq_true. by rewrite E.
  - unfold hashGuess. by rewrite H.
  - unfold hashGuess. rewrite H. apply join_hex_lower.
  - unfold hashGuess. by intros ->.
Qed.

(** C5 as stated fails: the stored digest written in capitals equals
    the digest of the normalized guess under a case-insensitive
    comparison, and the guess is rejected. *)
Lemma verify_rejects_capital_digest :
  truthy (answerHash Samples.hashedUpper) = true
  /\ hashGuess Sha256.digest (cleanGuess "En igma")
     = "67a4f45f0d1d9bc606486fc42dc4941668e71d34ee500735fe9b7ea4625c687c"%string
  /\ hexEqualIgnoringCase (hashGuess Sha256.digest (cleanGuess "En igma"))
       "67A4F45F0D1D9BC606486FC42DC4941668E71D34EE500735FE9B7EA4625C687C" = true
  /\ isCorrect Sha256.digest "En igma" Samples.hashedUpper = false
  /\ isCorrect Sha256.digest "En igma" Samples.hashed = true.
Proof. by vm_compute. Qed.


End VerifyFacts.

(** ** Submitting a guess *)
Section SubmitFacts.
Import Outcome Text Json Pool Verify Scoring Session.
Context (puzzles : list puzzle).
Implicit Types digest : list Byte.byte -> option (list Byte.byte).

Lemma handleSubmit_dropped digest ls s :
  dropped s = true -> handleSubmit digest puzzles ls s = (ls, s).
Proof. intros H. unfold handleSubmit. by rewrite H. Qed.

Lemma handleSubmit_wrong digest ls s :
  dropped s = false -> verdict digest puzzles s = Some false ->
  handleSubmit digest puzzles ls s = (ls, afterWrong s).
Proof. intros Hd Hv. unfold handleSubmit. rewrite Hd, Hv. by destruct s. Qed.

Lemma handleSubmit_correct digest ls s items :
  dropped s = false -> verdict digest puzzles s = Some true ->
  scoreHistory s = Arr items ->
  let points := pointsEarned (showHint s) (attempts s) in
  handleSubmit digest puzzles ls s
  = (storedAfterCorrect s points items ls, afterCorrect s points items).
Proof.
  intros Hd Hv Hh points. unfold handleSubmit, onCorrect. rewrite Hd, Hv, Hh.
  cbn [spread]. unfold advance, storedAfterCorrect, setItem. f_equal.
  unfold afterCorrect. destruct s. cbn in *.
  by destruct (5 <=? puzzlesToday0 + 1).
Qed.

(** The award is computed from the render the handler closed over:
    what the state has become when the timer fires plays no part. *)
Lemma onCorrect_uses_snapshot snap ls cur items :
  scoreHistory snap = Arr items ->
  exists pending,
    onCorrect snap ls cur
    = Some (storedAfterCorrect snap (pointsEarned (showHint snap) (attempts snap)) items ls,
            setStatus success cur, pending)
    /\ score (pending cur) = score snap + pointsEarned (showHint snap) (attempts snap).
Proof.
  intros Hh. unfold onCorrect. rewrite Hh. cbn [spread].
  eexists. split; [done|]. unfold advance.
  by destruct (5 <=? puzzlesToday snap + 1).
Qed.

Lemma wellFormedDigest_not_error h :
  wellFormedDigest h = true -> h <> "error"%string /\ truthy (Some h) = true.
Proof.
  intros H. split.
  - intros ->. done.
  - destruct h; [done | done].
Qed.

(** C6.  For a submission that is not dropped, on a puzzle whose stored
    [answerHash] is a well-formed digest: when the digest primitive
    throws or is unavailable the guess is not verified, nothing throws,
    and the page ends in the state any wrong guess leaves (storage
    untouched, one more attempt, input cleared, status back to idle). *)
Theorem digest_failure_is_a_wrong_guess
    (digest : list Byte.byte -> option (list Byte.byte))
    (ls : gmap string string) (s : AppState) (p : puzzle) (h : string) :
  dropped s = false ->
  currentPuzzle puzzles s = Some p ->
  answerHash p = Some h ->
  wellFormedDigest h = true ->
  digest (encode (cleanGuess (guess s))) = None ->
  isCorrect digest (guess s) p = false
  /\ verdict digest puzzles s = Some false
  /\ handleSubmit digest puzzles ls s = (ls, afterWrong s)
  /\ (forall digest', isCorrect digest' (guess s) p = false ->
        handleSubmit digest' puzzles ls s = handleSubmit digest puzzles ls s).
Proof.
  intros Hd Hp Hh Hwf Hfail.
  destruct (wellFormedDigest_not_error h Hwf) as [Hne Ht].
  assert (Hc : isCorrect digest (guess s) p = false).
  { unfold isCorrect, hashGuess. rewrite Hh, Ht, Hfail.
    apply bool_decide_eq_false. congruence. }
  assert (Hv : verdict digest puzzles s = Some false).
  { unfold verdict. by rewrite Hp, Hc. }
  repeat split; try done.
  - by apply handleSubmit_wrong.
  - intros digest' Hc'.
    assert (Hv' : verdict digest' puzzles s = Some false).
    { unfold verdict. by rewrite Hp, Hc'. }
    by rewrite (handleSubmit_wrong _ _ _ Hd Hv), (handleSubmit_wrong _ _ _ Hd Hv').
Qed.

End SubmitFacts.

Lemma digest_failure_is_a_wrong_guess_witness :
  let s := Samples.playingOn "Enigma" in
  Verify.isCorrect Samples.noDigest (Session.guess s) Samples.hashed = false
  /\ Session.verdict Samples.noDigest Samples.pool s = Some false
  /\ Session.handleSubmit Samples.noDigest Samples.pool ∅ s = (∅, Session.afterWrong s)
  /\ (forall digest', Verify.isCorrect digest' (Session.guess s) Samples.hashed = false ->
        Session.handleSubmit digest' Samples.pool ∅ s
        = Session.handleSubmit Samples.noDigest Samples.pool ∅ s).
Proof.
  apply (digest_failure_is_a_wrong_guess Samples.pool Samples.noDigest ∅
           (Samples.playingOn "Enigma") Samples.hashed
           "67a4f45f0d1d9bc606486fc42dc4941668e71d34ee500735fe9b7ea4625c687c");
    reflexivity.
Defined.

(** ** Loading the session *)
Section LoadFacts.
Import Outcome Text Json Pool Session.

Lemma load_persisted today ids ls s p sc h :
  persisted ls = Done (p, sc, h) ->
  load today ids ls s
  = if bool_decide (ls !! "gchq-date"%string = Some today)
    then Done (ls,
               let s1 := setSession ids p sc h s in
               if 5 <=? p then setGameState done_for_day s1
               else if 0 <? p then setGameState playing s1 else s1)
    else Done (writeReset today ls, setSession ids 0 0 (Arr []) s).
Proof.
  unfold persisted, load.
  destruct (parseInt10 (textOf (ls !! "gchq-puzzles-today"%string))) as [p0| |]; try done.
  destruct (parseInt10 (textOf (ls !! "gchq-score"%string))) as [sc0| |]; try done.
  destruct (parse (textOf (ls !! "gchq-history"%string))) as [h0| |]; try done.
  cbn [bind]. intros [= <- <- <-].
  by destruct (bool_decide (ls !! "gchq-date"%string = Some today)).
Qed.

(** A non-JSON history makes the effect throw, whatever the date. *)
Lemma load_throws today ids ls s p sc :
  parseInt10 (textOf (ls !! "gchq-puzzles-today"%string)) = Done p ->
  parseInt10 (textOf (ls !! "gchq-score"%string)) = Done sc ->
  parse (textOf (ls !! "gchq-history"%string)) = Throws JsSyntaxError ->
  load today ids ls s = Throws JsSyntaxError.
Proof. unfold load. by intros -> -> ->. Qed.

Lemma persisted_writeReset today ls :
  persisted (writeReset today ls) = Done (0, 0, Arr []).
Proof.
  unfold persisted, writeReset, setItem.
  rewrite lookup_insert_ne by done. rewrite lookup_insert_ne by done.
  rewrite lookup_insert_eq.
  rewrite (lookup_insert_ne _ "gchq-history"%string "gchq-score"%string) by done.
  rewrite lookup_insert_eq. rewrite lookup_insert_eq. done.
Qed.

(** Nothing stored: the three reads give the defaults. *)
Lemma persisted_missing ls :
  ls !! "gchq-puzzles-today"%string = None ->
  ls !! "gchq-score"%string = None ->
  ls !! "gchq-history"%string = None ->
  persisted ls = Done (0, 0, Arr []).
Proof. unfold persisted. by intros -> -> ->. Qed.

(** The date differs: the session is reset in the state and in the
    storage, provided the three stored texts can be read. *)
Lemma load_resets today ids ls s p sc h :
  persisted ls = Done (p, sc, h) ->
  ls !! "gchq-date"%string <> Some today ->
  load today ids ls s = Done (writeReset today ls, setSession ids 0 0 (Arr []) s)
  /\ writeReset today ls !! "gchq-date"%string = Some today
  /\ persisted (writeReset today ls) = Done (0, 0, Arr []).
Proof.
  intros Hp Hd. rewrite (load_persisted _ _ _ _ _ _ _ Hp).
  rewrite bool_decide_eq_false_2 by done. repeat split.
  - unfold writeReset, setItem. by rewrite !lookup_insert_ne, lookup_insert_eq by done.
  - apply persisted_writeReset.
Qed.

(** The date is today's: the storage is left as it is and the state
    takes the stored session; loading again changes nothing. *)
Lemma load_resumes today ids ls s p sc h :
  persisted ls = Done (p, sc, h) ->
  ls !! "gchq-date"%string = Some today ->
  exists s',
    load today ids ls s = Done (ls, s')
    /\ puzzlesToday s' = p /\ score s' = sc /\ scoreHistory s' = h
    /\ todaysPuzzles s' = ids
    /\ forall s0, exists s'',
         load today ids ls s0 = Done (ls, s'')
         /\ puzzlesToday s'' = p /\ score s'' = sc /\ scoreHistory s'' = h.
Proof.
  intros Hp Hd.
  assert (H : forall s0, exists s'',
    load today ids ls s0 = Done (ls, s'')
    /\ puzzlesToday s'' = p /\ score s'' = sc /\ scoreHistory s'' = h
    /\ todaysPuzzles s'' = ids).
  { intros s0. rewrite (load_persisted _ _ _ _ _ _ _ Hp).
    rewrite bool_decide_eq_true_2 by done.
    eexists; split; [done|]. by destruct (5 <=? p), (0 <? p). }
  destruct (H s) as (s' & E & ? & ? & ? & ?). exists s'. repeat split; try done.
  intros s0. destruct (H s0) as (s'' & ? & ? & ? & ? & ?). by exists s''.
Qed.

End LoadFacts.

(** ** The session invariant *)
Section SessionFacts.
Import Outcome Text Json Pool Verify Scoring DayIndex Select Session.
Context (puzzles : list puzzle) (clock : Clock).
Implicit Types digest : list Byte.byte -> option (list Byte.byte).

Lemma total_snoc l x : total (l ++ [x]) = total l + x.
Proof. unfold total. induction l as [|y l IH]; cbn; lia. Qed.

Lemma award_bounds z : award z -> 0 <= z <= 100.
Proof. unfold award. lia. Qed.

Lemma total_bounds l : Forall award l -> 0 <= total l <= 100 * Z.of_nat (length l).
Proof.
  induction 1 as [|z l Hz _ IH]; [cbn; lia|].
  apply award_bounds in Hz. cbn [total foldr length] in *. unfold total in IH. lia.
Qed.

Lemma pointsEarned_award hint attempts : award (pointsEarned hint attempts).
Proof.
  unfold award, pointsEarned. destruct hint; [lia|].
  destruct (attempts =? 0), (attempts =? 1), (attempts =? 2); lia.
Qed.

Lemma exact_awards l : Forall award l -> Forall exact (map Num l).
Proof.
  induction 1 as [|z l Hz _ IH]; constructor; [|done].
  apply award_bounds in Hz. cbn. lia.
Qed.

Lemma getTodaysPuzzles_length now order :
  length (getTodaysPuzzles clock now order) = 5%nat.
Proof. done. Qed.

Lemma persisted_storedAfterCorrect s points items ls :
  Z.abs (puzzlesToday s + 1) <= 2 ^ 53 ->
  Z.abs (score s + points) <= 2 ^ 53 ->
  Forall exact (items ++ [Num points]) ->
  persisted (storedAfterCorrect s points items ls)
  = Done (puzzlesToday s + 1, score s + points, Arr (items ++ [Num points])).
Proof.
  intros Hp Hs Hex. unfold persisted, storedAfterCorrect.
  rewrite lookup_insert_eq.
  rewrite (lookup_insert_ne _ "gchq-puzzles-today"%string "gchq-score"%string) by done.
  rewrite (lookup_insert_ne _ "gchq-history"%string "gchq-score"%string) by done.
  rewrite lookup_insert_eq.
  rewrite (lookup_insert_ne _ "gchq-puzzles-today"%string "gchq-history"%string) by done.
  rewrite lookup_insert_eq.
  cbn [textOf]. rewrite !parseInt10_toString by done.
  rewrite parse_stringify_array by done. done.
Qed.

(** The form is only shown for a puzzle of today's list. *)
Lemma formShown_index s :
  formShown puzzles s = true ->
  0 <= puzzlesToday s /\ (Z.to_nat (puzzlesToday s) < length (todaysPuzzles s))%nat.
Proof.
  unfold formShown, shownPuzzle, currentPuzzleId, array_get.
  destruct (gameState s); try done.
  destruct (Z.leb_spec 0 (puzzlesToday s)); [|done].
  destruct (todaysPuzzles s !! Z.to_nat (puzzlesToday s)) eqn:E; [|done].
  intros _. split; [done|]. by eapply lookup_lt_Some.
Qed.

Lemma sound_ui ls s s' m m' :
  puzzlesToday s' = puzzlesToday s -> score s' = score s ->
  scoreHistory s' = scoreHistory s -> todaysPuzzles s' = todaysPuzzles s ->
  sound (World ls s m) -> sound (World ls s' m').
Proof.
  intros E1 E2 E3 E4 (l & Hc & Hl & Hp). exists l. cbn [ui store] in *.
  by rewrite E1, E2, E3, E4.
Qed.

(** A correct guess on a sound page: one award appended, added, counted,
    in the state and in the storage. *)
Lemma submit_correct_sound digest ls s l :
  formShown puzzles s = true -> dropped s = false ->
  verdict digest puzzles s = Some true ->
  consistent (puzzlesToday s) (score s) (scoreHistory s) l ->
  (length (todaysPuzzles s) <= 5)%nat ->
  let points := pointsEarned (showHint s) (attempts s) in
  exists w',
    react digest puzzles clock Submit (World ls s true) = Done w'
    /\ award points
    /\ consistent (puzzlesToday (ui w')) (score (ui w')) (scoreHistory (ui w'))
         (l ++ [points])
    /\ puzzlesToday (ui w') = puzzlesToday s + 1
    /\ score (ui w') = score s + points
    /\ scoreHistory (ui w') = Arr (map Num (l ++ [points]))
    /\ todaysPuzzles (ui w') = todaysPuzzles s
    /\ persisted (store w')
       = Done (puzzlesToday (ui w'), score (ui w'), scoreHistory (ui w')).
Proof.
  intros Hf Hd Hv (Hh & Haw & Hsc & Hp & Hlen) Hids points.
  pose proof (formShown_index s Hf) as [Hp0 Hp5].
  pose proof (pointsEarned_award (showHint s) (attempts s)) as Hpts.
  fold points in Hpts. pose proof (award_bounds _ Hpts) as Hb.
  pose proof (total_bounds l Haw) as Htb.
  exists (World (storedAfterCorrect s points (map Num l) ls)
                (afterCorrect s points (map Num l)) true).
  assert (Hmap : map Num l ++ [Num points] = map Num (l ++ [points])).
  { by rewrite map_app. }
  split.
  { unfold react. cbn [ui store mounted andb]. rewrite Hf.
    by rewrite (handleSubmit_correct puzzles digest ls s (map Num l) Hd Hv Hh). }
  cbn [ui store afterCorrect puzzlesToday score scoreHistory todaysPuzzles].
  split; [done|]. split; [|repeat split].
  - repeat split.
    + by rewrite Hmap.
    + apply Forall_app. split; [done | by constructor].
    + rewrite total_snoc. lia.
    + rewrite length_app. cbn. lia.
    + rewrite length_app. cbn. lia.
  - by rewrite Hmap.
  - rewrite persisted_storedAfterCorrect; [done | lia | lia |].
    rewrite Hmap. apply exact_awards, Forall_app. split; [done | by constructor].
Qed.

(** The ranges of the data model: at most five puzzles, at most 500
    points. *)
Lemma sound_ranges w :
  sound w -> 0 <= puzzlesToday (ui w) <= 5 /\ 0 <= score (ui w) <= 500.
Proof.
  intros (l & (_ & Haw & Hsc & Hp & Hlen) & _).
  pose proof (total_bounds l Haw). lia.
Qed.

Lemma react_sound digest e w :
  sound w -> exists w', react digest puzzles clock e w = Done w' /\ sound w'.
Proof.
  intros Hw. destruct w as [ls s m]. destruct e; cbn [react ui store mounted].
  - (* Mount *)
    destruct Hw as (l & Hc & Hl & Hp). cbn [ui store] in *.
    rewrite (load_persisted _ _ _ _ _ _ _ Hp).
    destruct (bool_decide _); eexists; (split; [done|]).
    + exists l. cbn [ui store]. split; [|split];
        by destruct (5 <=? puzzlesToday s), (0 <? puzzlesToday s).
    + exists []. cbn [ui store]. split; [|split].
      * repeat split; try done; try (compute; lia); constructor.
      * done.
      * apply persisted_writeReset.
  - destruct m, (gameState s); eexists; (split; [done|]);
      first [done | by eapply sound_ui].
  - destruct m, (gameState s); eexists; (split; [done|]);
      first [done | by eapply sound_ui].
  - destruct m, (gameState s); eexists; (split; [done|]);
      first [done | by eapply sound_ui].
  - destruct (m && formShown puzzles s && inputEnabled s); eexists;
      (split; [done|]); first [done | by eapply sound_ui].
  - destruct (m && formShown puzzles s && negb (showHint s)); eexists;
      (split; [done|]); first [done | by eapply sound_ui].
  - (* Submit *)
    destruct m; [|by eexists]. cbn [andb].
    destruct (formShown puzzles s) eqn:Hf; [|by eexists].
    destruct (dropped s) eqn:Hd.
    { rewrite handleSubmit_dropped by done. by exists (World ls s true). }
    destruct (verdict digest puzzles s) as [[|]|] eqn:Hv.
    + destruct Hw as (l & Hc & Hl & Hp). cbn [ui store] in *.
      destruct (submit_correct_sound digest ls s l Hf Hd Hv Hc Hl)
        as (w' & Hr & _ & Hc' & _ & _ & _ & Hi & Hp').
      unfold react in Hr. cbn [ui store mounted andb] in Hr. rewrite Hf in Hr.
      exists w'. split; [done|].
      exists (l ++ [pointsEarned (showHint s) (attempts s)]). by rewrite Hi.
    + rewrite handleSubmit_wrong by done.
      exists (World ls (afterWrong s) true). split; [done|].
      by apply (sound_ui ls s _ true).
    + unfold handleSubmit. rewrite Hd, Hv.
      exists (World ls (setStatus checking s) true). split; [done|].
      by apply (sound_ui ls s _ true).
Qed.

Lemma play_snoc digest events e :
  play digest puzzles clock (events ++ [e])
  = bind (play digest puzzles clock events) (react digest puzzles clock e).
Proof. unfold play. by rewrite fold_left_app. Qed.

Lemma play_sound digest events :
  exists w, play digest puzzles clock events = Done w /\ sound w.
Proof.
  induction events as [|e events (w & Hw & Hs)] using rev_ind.
  - exists freshWorld. split; [done|].
    exists []. repeat split; try done; try (compute; lia); constructor.
  - rewrite play_snoc, Hw. cbn [bind]. by apply react_sound.
Qed.

End SessionFacts.

(** ** The claims on the session *)
Section SessionClaims.
Import Outcome Text Json Pool Verify Scoring DayIndex Select Session.


(** The visit of [Samples.visit]: the first puzzle is solved at the
    third attempt for 50, the second after the hint for 0. *)
Example visit_scores :
  exists w,
    play Sha256.digest Samples.pool (fixedZone 0) Samples.visit = Done w
    /\ score (ui w) = 50
    /\ scoreHistory (ui w) = Arr [Num 50; Num 0]
    /\ puzzlesToday (ui w) = 2
    /\ persisted (store w) = Done (2, 50, Arr [Num 50; Num 0]).
Proof. eexists. split; [by vm_compute|]. by vm_compute. Qed.

(** C8: the code breaks the claim when the stored history is not JSON.
    The stored date is yesterday's, so the session must be reset; but
    line 113 parses the history before line 115 compares the dates, the
    parse throws, and nothing is reset: the effect ends there and the
    storage keeps yesterday's date, counter and score. *)
Theorem load_throws_before_the_reset :
  let ls := Samples.stored Samples.yesterday "[100,75" in
  ls !! "gchq-date"%string <> Some Samples.today
  /\ load Samples.today [] ls initialState = Throws JsSyntaxError
  /\ (forall digest puzzles clock now m,
        react digest puzzles clock (Mount Samples.today now) (World ls initialState m)
        = Done (World ls initialState false))
  /\ load Samples.today [] (Samples.stored Samples.yesterday "[100,75]") initialState
     = Done (writeReset Samples.today (Samples.stored Samples.yesterday "[100,75]"),
             initialState).
Proof.
  assert (E : forall ids, load Samples.today ids
                (Samples.stored Samples.yesterday "[100,75") initialState
              = Throws JsSyntaxError).
  { intros ids. by apply (load_throws _ _ _ _ (Some 2) (Some 175)). }
  split; [|split; [|split]].
  - by vm_compute.
  - apply E.
  - intros digest puzzles clock now m. unfold react. cbn [store ui]. by rewrite E.
  - rewrite (load_persisted _ _ _ _ 2 175 (Arr [Num 100; Num 75])) by done.
    by rewrite bool_decide_eq_false_2 by (by vm_compute).
Qed.

(** C9: the code breaks the claim on a history text that is not JSON.
    A missing value and a counter that is not a number do give the
    defaults; a history such as [oops], or the empty text, makes
    [JSON.parse] throw out of the effect: no default is substituted and
    the component state is never set. *)
Theorem load_throws_on_a_non_json_history :
  persisted ∅ = Done (0, 0, Arr [])
  /\ parseInt10 "abc" = Done None
  /\ parse "oops" = Throws JsSyntaxError
  /\ parse "" = Throws JsSyntaxError
  /\ load Samples.today [] (Samples.stored Samples.today "oops") initialState
     = Throws JsSyntaxError
  /\ load Samples.today [] (<["gchq-history"%string := "oops"%string]> ∅) initialState
     = Throws JsSyntaxError
  /\ (forall digest puzzles clock now m,
        react digest puzzles clock (Mount Samples.today now)
          (World (Samples.stored Samples.today "oops") initialState m)
        = Done (World (Samples.stored Samples.today "oops") initialState false)).
Proof.
  assert (E : forall ids, load Samples.today ids
                (Samples.stored Samples.today "oops") initialState
              = Throws JsSyntaxError).
  { intros ids. by apply (load_throws _ _ _ _ (Some 2) (Some 175)). }
  do 4 (split; [done|]). split; [apply E|]. split.
  - by apply (load_throws _ _ _ _ None None).
  - intros digest puzzles clock now m. unfold react. cbn [store ui]. by rewrite E.
Qed.


End SessionClaims.

(** * Further properties: edges, round trips and the rest of the page *)

(** ** The day index outside the daylight-saving case *)
Section DayIndexEdges.
Import DayIndex.

(** X1.  In any zone, for instants from the epoch on, the day index is
    never negative and never decreases as time passes. *)
Theorem day_index_never_runs_backwards (c : Clock) (t u : Z) :
  civil c -> epoch c <= t -> t <= u ->
  0 <= getDayIndex c t <= getDayIndex c u.
Proof.
  intros Hc Ht Hu. split.
  - by apply getDayIndex_nonneg.
  - by apply getDayIndex_mono.
Qed.

Lemma day_index_never_runs_backwards_witness :
  0 <= getDayIndex NewYork.clock 1710129599999
    <= getDayIndex NewYork.clock 1730696400000.
Proof.
  apply (day_index_never_runs_backwards NewYork.clock 1710129599999 1730696400000).
  - exact NewYork_civil.
  - vm_compute. intros [=].
  - vm_compute. intros [=].
Defined.

(** X2.  In a zone with a fixed offset from UTC the day index is the
    number of the local calendar day, counted from 2024-01-01 (day
    19723 of the Unix era): the same for all instants of one local day,
    and one more on the next day. *)
Theorem day_index_counts_calendar_days (off now : Z) :
  let day t := (t + off) / msPerDay in
  getDayIndex (fixedZone off) now = day now - 19723
  /\ (forall t, day t = day now ->
        getDayIndex (fixedZone off) t = getDayIndex (fixedZone off) now)
  /\ (forall t, day t = day now + 1 ->
        getDayIndex (fixedZone off) t = getDayIndex (fixedZone off) now + 1).
Proof.
  intros day.
  assert (E : forall t, getDayIndex (fixedZone off) t = day t - 19723).
  { intros t. unfold getDayIndex, fixedZone, day, msPerDay. cbn [localMidnight epoch].
    replace ((t + off) / 86400000 * 86400000 - off - (1704067200000 - off))
      with (((t + off) / 86400000 - 19723) * 86400000) by lia.
    by rewrite Z.div_mul. }
  split; [apply E|]. split; intros t Ht; rewrite !E; lia.
Qed.

(** X3.  Before the epoch the day index is negative: the floor of a
    negative quotient, not a clamp at 0. *)
Theorem day_index_negative_before_epoch (c : Clock) (now : Z) :
  civil c -> now < epoch c -> getDayIndex c now < 0.
Proof.
  intros Hc Hnow. unfold getDayIndex, msPerDay.
  pose proof (midnight_le c Hc now).
  apply Z.div_lt_upper_bound; lia.
Qed.

Lemma day_index_negative_before_epoch_witness :
  getDayIndex (fixedZone 0) 1704067199999 < 0.
Proof.
  apply (day_index_negative_before_epoch (fixedZone 0) 1704067199999).
  - exact (fixedZone_civil 0).
  - vm_compute. reflexivity.
Defined.

End DayIndexEdges.

(** ** The daily set outside its preconditions, and from day to day *)
Section SelectEdges.
Import Pool Shuffle DayIndex Select Session Display.

Lemma master_order_NoDup puzzles :
  NoDup (map id puzzles) -> NoDup (getMasterPuzzleList puzzles).
Proof. intros H. unfold getMasterPuzzleList. by rewrite shuffle_loop_perm. Qed.

Lemma master_order_length puzzles :
  length (getMasterPuzzleList puzzles) = length puzzles.
Proof. unfold getMasterPuzzleList. by rewrite shuffle_loop_perm, length_map. Qed.

Lemma slot_number k : k ∈ [0; 1; 2; 3; 4] -> 0 <= k < 5.
Proof.
  intros Hk. repeat (apply elem_of_cons in Hk as [-> | Hk]; [lia|]).
  by apply elem_of_nil in Hk.
Qed.

(** X5.  With an empty pool the master order is empty, [% 0] is [NaN]
    and every slot of the daily set is [undefined]; a page holding that
    set never shows a puzzle, whatever its state. *)
Theorem empty_pool_shows_no_puzzle
    (c : Clock) (now : Z) (puzzles : list puzzle) (s : AppState) :
  getMasterPuzzleList [] = []
  /\ getTodaysPuzzles c now (getMasterPuzzleList []) = [None; None; None; None; None]
  /\ (todaysPuzzles s = getTodaysPuzzles c now (getMasterPuzzleList []) ->
        forall p, render puzzles s <> PuzzleScreen p).
Proof.
  split; [done|]. split; [done|]. intros E p.
  assert (H : shownPuzzle puzzles s = None).
  { unfold shownPuzzle, currentPuzzleId, array_get. rewrite E.
    destruct (0 <=? puzzlesToday s); [|done].
    generalize (Z.to_nat (puzzlesToday s)). intros n.
    by do 6 (destruct n as [|n]; [done|]). }
  unfold render. rewrite H. by destruct (gameState s).
Qed.

(** X6.  On a day before the epoch ([dayIndex * 5 + i] negative) the
    remainder is negative or zero: the slot is [undefined], except
    where the index is a multiple of the length, which reads the first
    entry of the master order. *)
Theorem slot_before_the_epoch (d k : Z) (order : list Z) :
  d * 5 + k < 0 -> order <> [] ->
  slot d order k
  = if (d * 5 + k) mod Z.of_nat (length order) =? 0 then order !! 0%nat else None.
Proof.
  intros Hneg Hne. unfold slot, js_rem, array_get.
  assert (0 < Z.of_nat (length order)) by (destruct order; [done | cbn; lia]).
  rewrite (proj2 (Z.eqb_neq _ 0)) by lia.
  set (a := d * 5 + k) in *. set (n := Z.of_nat (length order)) in *.
  pose proof (Z.rem_bound_pos_neg a n ltac:(lia) ltac:(lia)) as Hb.
  destruct (Z.eqb_spec (a mod n) 0) as [E|E].
  - assert (Z.rem a n = 0) as ->; [|done].
    apply Z.rem_divide; [lia|]. apply Z.mod_divide; [lia|done].
  - assert (Z.rem a n <> 0).
    { intros R. apply E. apply Z.mod_divide; [lia|]. apply Z.rem_divide; [lia|done]. }
    by rewrite (proj2 (Z.leb_gt _ _)) by lia.
Qed.

Lemma slot_before_the_epoch_witness :
  slot (-1) [4; 2; 1] 1 = None /\ slot (-1) [4; 2; 1] 2 = Some 4.
Proof.
  split.
  - apply (slot_before_the_epoch (-1) 1 [4; 2; 1]); [lia | done].
  - apply (slot_before_the_epoch (-1) 2 [4; 2; 1]); [lia | done].
Defined.

(** X7.  The daily sets repeat: the set of day [d + n], for a master
    order of [n] puzzles, is the set of day [d]. *)
Theorem daily_set_period (d : Z) (order : list Z) :
  0 <= d ->
  todaysIdsAt (d + Z.of_nat (length order)) order = todaysIdsAt d order.
Proof.
  intros Hd. rewrite !todaysIdsAt_slots.
  apply map_ext_in. intros k Hk. apply list_elem_of_In, slot_number in Hk.
  unfold slot, js_rem.
  destruct (Z.eqb_spec (Z.of_nat (length order)) 0) as [E|E]; [done|].
  f_equal. f_equal.
  rewrite !Z.rem_mod_nonneg by lia.
  replace ((d + Z.of_nat (length order)) * 5 + k)
    with (d * 5 + k + 5 * Z.of_nat (length order)) by lia.
  by rewrite Z_mod_plus_full.
Qed.

Lemma daily_set_period_witness :
  todaysIdsAt (3 + Z.of_nat (length [4; 2; 1; 6; 12; 3; 5])) [4; 2; 1; 6; 12; 3; 5]
  = todaysIdsAt 3 [4; 2; 1; 6; 12; 3; 5].
Proof. apply (daily_set_period 3 [4; 2; 1; 6; 12; 3; 5]). lia. Defined.

(** X8.  With distinct ids, the sets of two days that are close enough
    for their windows not to overlap around the end of the master order
    ([5 * (d2 - d1) + 5] at most its length) share no puzzle. *)
Theorem no_repeat_while_the_window_has_not_wrapped
    (puzzles : list puzzle) (d1 d2 : Z) (x : Z) :
  NoDup (map id puzzles) ->
  0 <= d1 < d2 -> 5 * (d2 - d1) + 5 <= Z.of_nat (length puzzles) ->
  let order := getMasterPuzzleList puzzles in
  Some x ∈ todaysIdsAt d1 order -> Some x ∉ todaysIdsAt d2 order.
Proof.
  intros Hnd Hd Hlen order H1 H2.
  assert (Hon : NoDup order) by by apply master_order_NoDup.
  assert (Hol : length order = length puzzles) by apply master_order_length.
  assert (Hne : order <> []) by (intros E; rewrite E in Hol; cbn in Hol; lia).
  rewrite todaysIdsAt_slots in H1, H2.
  apply list_elem_of_fmap in H1 as (k1 & E1 & Hk1%slot_number).
  apply list_elem_of_fmap in H2 as (k2 & E2 & Hk2%slot_number).
  rewrite slot_lookup in E1 by (done || lia).
  rewrite slot_lookup in E2 by (done || lia).
  symmetry in E1, E2.
  pose proof (NoDup_lookup _ _ _ _ Hon E1 E2) as E.
  rewrite Hol in E.
  set (n := Z.of_nat (length puzzles)) in *.
  assert (0 < n) by lia.
  apply Z2Nat.inj in E; [| apply Z.mod_pos_bound; lia | apply Z.mod_pos_bound; lia].
  assert (Hz : (d2 * 5 + k2 - (d1 * 5 + k1)) mod n = 0).
  { rewrite Zminus_mod, E, Z.sub_diag. by apply Z.mod_0_l; lia. }
  apply Z.mod_divide in Hz; [|lia].
  apply Z.divide_pos_le in Hz; lia.
Qed.

Lemma no_repeat_while_the_window_has_not_wrapped_witness :
  Some 11 ∉ todaysIdsAt 1 (getMasterPuzzleList Cases.manyPuzzles).
Proof.
  apply (no_repeat_while_the_window_has_not_wrapped Cases.manyPuzzles 0 1 11).
  - apply (bool_decide_unpack _). by vm_compute.
  - lia.
  - vm_compute. intros [=].
  - apply (bool_decide_unpack _). by vm_compute.
Defined.

End SelectEdges.

(** ** Reading the storage back *)
Section StorageEdges.
Import Outcome Text Json Pool Session.

Lemma spanDigits_append d rest :
  match rest with String c _ => isDigit c = false | EmptyString => True end ->
  spanDigits (append (NilEmpty.string_of_uint d) rest)
  = (NilEmpty.string_of_uint d, rest).
Proof.
  intros Hr. induction d; cbn [NilEmpty.string_of_uint];
    rewrite ?append_nil, ?append_cons; cbn [spanDigits];
    try (change (isDigit "0") with true; cbn match);
    try (by rewrite IHd).
  destruct rest as [|c r]; [done|]. cbn [spanDigits]. by rewrite Hr.
Qed.

Lemma trimStart_blank ws s :
  removeWhiteSpace ws = EmptyString -> trimStart (append ws s) = trimStart s.
Proof.
  induction ws as [|c ws IH]; [done|]. cbn [removeWhiteSpace].
  destruct (isWhiteSpace c) eqn:E; [|done].
  intros H. rewrite append_cons. cbn [trimStart]. rewrite E. by apply IH.
Qed.

Lemma parseDigits_append p rest :
  Z.pos p <= 2 ^ 53 ->
  match rest with String c _ => isDigit c = false | EmptyString => True end ->
  parseDigits (append (NilEmpty.string_of_uint (Pos.to_uint p)) rest)
  = Done (Some (Z.pos p)).
Proof.
  intros Hp Hr. unfold parseDigits. rewrite spanDigits_append by done.
  rewrite decimalValue_pos.
  destruct (Z.leb_spec (Z.pos p) (2 ^ 53)); [|lia].
  by destruct (to_uint_leading p).
Qed.

(** X9.  [parseInt(text, 10)] skips leading white space, reads the sign
    and the digits, and ignores whatever follows them: a stored counter
    such as [" 3.75abc"] is read as 3, not replaced by the default. *)
Theorem parseInt_reads_the_leading_integer (ws rest : string) (z : Z) :
  removeWhiteSpace ws = EmptyString ->
  Z.abs z <= 2 ^ 53 ->
  match rest with String c _ => isDigit c = false | EmptyString => True end ->
  parseInt10 (append ws (append (Number_toString z) rest)) = Done (Some z).
Proof.
  intros Hws Hz Hr. unfold parseInt10. rewrite trimStart_blank by done.
  destruct z as [|p|p].
  - change (Number_toString 0) with "0"%string. rewrite append_cons, append_nil.
    cbn [trimStart]. change (isWhiteSpace "0") with false. cbn match.
    change (Ascii.eqb "0" "-") with false. change (Ascii.eqb "0" "+") with false.
    cbn match. unfold parseDigits. cbn [spanDigits].
    change (isDigit "0") with true. cbn match.
    destruct rest as [|c r]; [done|]. cbn [spanDigits]. by rewrite Hr.
  - rewrite Number_toString_pos.
    pose proof (parseDigits_append p rest ltac:(lia) Hr) as E.
    destruct (to_uint_leading p); cbn [NilEmpty.string_of_uint] in *;
      rewrite append_cons in *; exact E.
  - rewrite Number_toString_neg, append_cons. cbn [trimStart].
    change (isWhiteSpace "-") with false. cbn match.
    change (Ascii.eqb "-" "-") with true. cbn match.
    by rewrite parseDigits_append by (done || lia).
Qed.

Lemma parseInt_reads_the_leading_integer_witness :
  parseInt10 (append " " (append (Number_toString 3) ".75abc")) = Done (Some 3).
Proof.
  apply (parseInt_reads_the_leading_integer " " ".75abc" 3).
  - reflexivity.
  - vm_compute. intros [=].
  - reflexivity.
Defined.

(** X10.  On a load under today's date the stored counter, score and
    history are resumed exactly as stored, whatever they are: there is
    no check that the counter is between 0 and 5, that the score is the
    sum of the history or that the history has as many entries as the
    counter says; the counter alone picks the screen. *)
Theorem load_resumes_what_is_stored
    (today : string) (ids : list (option Z)) (ls : gmap string string) (s : AppState)
    (p sc : Z) (items : list scalar) :
  ls !! "gchq-date"%string = Some today ->
  ls !! "gchq-puzzles-today"%string = Some (Number_toString p) ->
  ls !! "gchq-score"%string = Some (Number_toString sc) ->
  ls !! "gchq-history"%string = Some (stringify (Arr items)) ->
  Z.abs p <= 2 ^ 53 -> Z.abs sc <= 2 ^ 53 -> Forall exact items ->
  exists s',
    load today ids ls s = Done (ls, s')
    /\ puzzlesToday s' = p /\ score s' = sc /\ scoreHistory s' = Arr items
    /\ todaysPuzzles s' = ids
    /\ gameState s' = (if 5 <=? p then done_for_day
                       else if 0 <? p then playing else gameState s).
Proof.
  intros Hd Hp Hsc Hh Bp Bsc Hex.
  assert (P : persisted ls = Done (p, sc, Arr items)).
  { unfold persisted. rewrite Hp, Hsc, Hh. cbn [textOf].
    rewrite !parseInt10_toString by done. rewrite parse_stringify_array by done. done. }
  rewrite (load_persisted _ _ _ _ _ _ _ P).
  rewrite bool_decide_eq_true_2 by done.
  eexists. split; [done|]. by destruct (5 <=? p), (0 <? p).
Qed.

Lemma load_resumes_what_is_stored_witness :
  let ls := Cases.session Samples.today "-3" "99999" "[null,7]" in
  exists s',
    load Samples.today Cases.todaysFive ls initialState = Done (ls, s')
    /\ puzzlesToday s' = -3 /\ score s' = 99999
    /\ scoreHistory s' = Arr [Null; Num 7]
    /\ todaysPuzzles s' = Cases.todaysFive
    /\ gameState s' = (if 5 <=? -3 then done_for_day
                       else if 0 <? -3 then playing else gameState initialState).
Proof.
  apply (load_resumes_what_is_stored Samples.today Cases.todaysFive
           (Cases.session Samples.today "-3" "99999" "[null,7]") initialState
           (-3) 99999 [Null; Num 7]);
    try reflexivity.
  - vm_compute. intros [=].
  - vm_compute. intros [=].
  - repeat constructor. vm_compute. intros [=].
Defined.

(** X11.  Whenever the load effect completes, the storage carries
    today's date, and reading it back gives exactly the counter, score
    and history the effect has put in the component state. *)
Theorem load_leaves_storage_and_state_agreeing
    (today : string) (ids : list (option Z))
    (ls ls' : gmap string string) (s s' : AppState) :
  load today ids ls s = Done (ls', s') ->
  ls' !! "gchq-date"%string = Some today
  /\ persisted ls' = Done (puzzlesToday s', score s', scoreHistory s')
  /\ todaysPuzzles s' = ids.
Proof.
  intros H.
  destruct (persisted ls) as [[[p sc] h]| |] eqn:P.
  - rewrite (load_persisted _ _ _ _ _ _ _ P) in H.
    destruct (bool_decide (ls !! "gchq-date"%string = Some today)) eqn:D.
    + apply bool_decide_eq_true in D. injection H as <- <-.
      split; [done|]. rewrite P. by destruct (5 <=? p), (0 <? p).
    + injection H as <- <-. split; [|split; [|done]].
      * unfold writeReset, setItem. by rewrite !lookup_insert_ne, lookup_insert_eq by done.
      * by rewrite persisted_writeReset.
  - exfalso. unfold persisted, load in *.
    destruct (parseInt10 (textOf (ls !! "gchq-puzzles-today"%string))); try done.
    destruct (parseInt10 (textOf (ls !! "gchq-score"%string))); try done.
    destruct (parse (textOf (ls !! "gchq-history"%string))); done.
  - exfalso. unfold persisted, load in *.
    destruct (parseInt10 (textOf (ls !! "gchq-puzzles-today"%string))); try done.
    destruct (parseInt10 (textOf (ls !! "gchq-score"%string))); try done.
    destruct (parse (textOf (ls !! "gchq-history"%string))); done.
Qed.

Lemma load_leaves_storage_and_state_agreeing_witness :
  let ls' := writeReset Samples.today ∅ in
  ls' !! "gchq-date"%string = Some Samples.today
  /\ persisted ls'
     = Done (puzzlesToday initialState, score initialState, scoreHistory initialState)
  /\ todaysPuzzles initialState = [].
Proof.
  apply (load_leaves_storage_and_state_agreeing Samples.today [] ∅
           (writeReset Samples.today ∅) initialState initialState).
  reflexivity.
Defined.

End StorageEdges.

(** ** The digest text and the verdict *)
Section VerifyEdges.
Import Text Pool Verify.
Implicit Types digest : list Byte.byte -> option (list Byte.byte).

Lemma length_append (a b : string) :
  String.length (append a b) = (String.length a + String.length b)%nat.
Proof. induction a as [|c a IH]; [done|]. rewrite append_cons. cbn. by rewrite IH. Qed.

Lemma allHex_append a b : allHex (append a b) = allHex a && allHex b.
Proof.
  induction a as [|c a IH]; [done|]. rewrite append_cons. cbn [allHex].
  by rewrite IH, andb_assoc.
Qed.

Lemma hexByte_shape b :
  String.length (hexByte b) = 2%nat /\ allHex (hexByte b) = true.
Proof. by destruct b. Qed.

Lemma join_hex_shape bs :
  String.length (join (map hexByte bs)) = (2 * length bs)%nat
  /\ allHex (join (map hexByte bs)) = true.
Proof.
  induction bs as [|b bs [IH1 IH2]]; [done|]. cbn [map join length].
  destruct (hexByte_shape b) as [L H].
  rewrite length_append, allHex_append, L, IH1, H, IH2. split; [lia|done].
Qed.

(** X12.  When the digest succeeds, [hashGuess] returns two lowercase
    hexadecimal digits per byte and nothing else: for the 32 bytes of
    SHA-256, a well-formed digest text of 64 digits. *)
Theorem hashGuess_prints_lowercase_hex digest
    (text : string) (hashArray : list Byte.byte) :
  digest (encode text) = Some hashArray ->
  String.length (hashGuess digest text) = (2 * length hashArray)%nat
  /\ allHex (hashGuess digest text) = true
  /\ toLowerCase (hashGuess digest text) = hashGuess digest text
  /\ (length hashArray = 32%nat -> wellFormedDigest (hashGuess digest text) = true).
Proof.
  intros Hd. unfold hashGuess. rewrite Hd.
  destruct (join_hex_shape hashArray) as [L H].
  split; [done|]. split; [done|]. split; [apply join_hex_lower|].
  intros H32. unfold wellFormedDigest. by rewrite H, L, H32.
Qed.

Lemma hashGuess_prints_lowercase_hex_witness :
  let hashArray := [Byte.x00; Byte.xff; Byte.x1a] in
  let digest := fun _ : list Byte.byte => Some hashArray in
  String.length (hashGuess digest "enigma") = (2 * length hashArray)%nat
  /\ allHex (hashGuess digest "enigma") = true
  /\ toLowerCase (hashGuess digest "enigma") = hashGuess digest "enigma"
  /\ (length hashArray = 32%nat -> wellFormedDigest (hashGuess digest "enigma") = true).
Proof.
  apply (hashGuess_prints_lowercase_hex
           (fun _ => Some [Byte.x00; Byte.xff; Byte.x1a]) "enigma"
           [Byte.x00; Byte.xff; Byte.x1a]).
  reflexivity.
Defined.

Lemma hexDigit_inj n m : (n < 16)%N -> (m < 16)%N -> hexDigit n = hexDigit m -> n = m.
Proof.
  intros Hn Hm H. apply (f_equal N_of_ascii) in H. unfold hexDigit in H.
  destruct (N.ltb_spec n 10), (N.ltb_spec m 10);
    rewrite !N_ascii_embedding in H by lia; lia.
Qed.

Lemma hexByte_inj a b : hexByte a = hexByte b -> a = b.
Proof.
  unfold hexByte. intros [= H1 H2].
  pose proof (Byte.to_N_bounded a). pose proof (Byte.to_N_bounded b).
  apply hexDigit_inj in H1; [| apply N.Div0.div_lt_upper_bound; lia ..].
  apply hexDigit_inj in H2; [| apply N.mod_lt; lia ..].
  assert (E : Byte.to_N a = Byte.to_N b).
  { rewrite (N.div_mod (Byte.to_N a) 16), (N.div_mod (Byte.to_N b) 16) by lia.
    by rewrite H1, H2. }
  pose proof (Byte.of_to_N a) as Ea. pose proof (Byte.of_to_N b) as Eb.
  rewrite E in Ea. congruence.
Qed.

Lemma join_hex_inj xs : forall ys,
  join (map hexByte xs) = join (map hexByte ys) -> xs = ys.
Proof.
  induction xs as [|x xs IH]; intros [|y ys]; cbn [map join]; try done.
  intros H.
  assert (hexByte x = hexByte y /\ join (map hexByte xs) = join (map hexByte ys))
    as [E1 E2].
  { unfold hexByte in *. rewrite !append_cons, !append_nil in H.
    injection H as -> -> ->. done. }
  apply hexByte_inj in E1 as ->. by rewrite (IH ys).
Qed.

(** X13.  The hexadecimal text loses nothing: two texts get the same
    [hashGuess] result exactly when their digests are the same bytes,
    so comparing the texts is comparing the digests. *)
Theorem hashGuess_separates_digests digest (t1 t2 : string) (h1 h2 : list Byte.byte) :
  digest (encode t1) = Some h1 -> digest (encode t2) = Some h2 ->
  (hashGuess digest t1 = hashGuess digest t2 <-> h1 = h2).
Proof.
  intros E1 E2. unfold hashGuess. rewrite E1, E2. split.
  - apply join_hex_inj.
  - by intros ->.
Qed.

Lemma hashGuess_separates_digests_witness :
  hashGuess Some "enigma" = hashGuess Some "rosebud"
  <-> encode "enigma" = encode "rosebud".
Proof.
  apply (hashGuess_separates_digests Some "enigma" "rosebud"); reflexivity.
Defined.


Lemma removeWhiteSpace_lower s :
  removeWhiteSpace (toLowerCase s) = toLowerCase (removeWhiteSpace s).
Proof.
  induction s as [|c s IH]; [done|]. cbn [toLowerCase removeWhiteSpace].
  rewrite lowerUnit_space. destruct (isWhiteSpace c); [done|].
  cbn [toLowerCase]. by rewrite IH.
Qed.


Lemma cleanGuess_blank w : removeWhiteSpace w = EmptyString -> cleanGuess w = EmptyString.
Proof. intros H. unfold cleanGuess. by rewrite removeWhiteSpace_lower, H. Qed.

Lemma cleanGuess_fixed g : cleanGuess (cleanGuess g) = cleanGuess g.
Proof.
  destruct (cleanGuess_normal g) as [H1 H2].
  unfold cleanGuess at 1. by rewrite H2, H1.
Qed.




(** X15.  The stored plain answer is compared as it is, never
    normalised: a puzzle without [answerHash] whose [answer] is missing,
    or holds a capital letter or white space, accepts no guess at all. *)
Theorem unnormalised_answer_is_never_matched digest (guess : string) (p : puzzle) :
  truthy (answerHash p) = false ->
  (forall a, answer p = Some a -> cleanGuess a <> a) ->
  isCorrect digest guess p = false.
Proof.
  intros Hh Ha. unfold isCorrect. rewrite Hh.
  apply bool_decide_eq_false. intros E. symmetry in E.
  apply (Ha _ E), cleanGuess_fixed.
Qed.

Lemma unnormalised_answer_is_never_matched_witness :
  isCorrect Sha256.digest "Rose Bud" Cases.spaced = false.
Proof.
  apply (unnormalised_answer_is_never_matched Sha256.digest "Rose Bud" Cases.spaced).
  - reflexivity.
  - intros a [= <-]. vm_compute. intros [=].
Defined.

(** X16.  With a puzzle that has an [answerHash] and a digest that
    fails, the guess is accepted exactly when the stored text is the
    five letters [error], the value [hashGuess] returns from its
    [catch]: every other stored text rejects every guess. *)
Theorem failed_digest_matches_only_the_text_error digest (guess : string) (p : puzzle) :
  truthy (answerHash p) = true ->
  digest (encode (cleanGuess guess)) = None ->
  (isCorrect digest guess p = true <-> answerHash p = Some "error"%string).
Proof.
  intros Hh Hd. unfold isCorrect, hashGuess. rewrite Hh, Hd.
  rewrite bool_decide_eq_true. split; congruence.
Qed.

Lemma failed_digest_matches_only_the_text_error_witness :
  isCorrect Samples.noDigest "enigma" Samples.hashed = true
  <-> answerHash Samples.hashed = Some "error"%string.
Proof.
  apply (failed_digest_matches_only_the_text_error Samples.noDigest "enigma"
           Samples.hashed); reflexivity.
Defined.

End VerifyEdges.

(** ** Guess after guess *)
Section SubmitEdges.
Import Outcome Text Json Pool Verify Scoring Session Display Share.
Context (puzzles : list puzzle).
Implicit Types digest : list Byte.byte -> option (list Byte.byte).

Lemma submit_wrong_guess digest ls s p g :
  currentPuzzle puzzles s = Some p -> status s = idle ->
  g <> EmptyString -> isCorrect digest g p = false ->
  handleSubmit digest puzzles ls (setGuess g s) = (ls, afterWrong s).
Proof.
  intros Hp Hst Hg Hc.
  rewrite handleSubmit_wrong.
  - by destruct s.
  - unfold dropped. cbn [guess status setGuess]. rewrite Hst. by destruct g.
  - unfold verdict.
    change (currentPuzzle puzzles (setGuess g s)) with (currentPuzzle puzzles s).
    rewrite Hp. cbn [guess setGuess]. by rewrite Hc.
Qed.

Lemma submit_right_guess digest ls s p g items :
  currentPuzzle puzzles s = Some p -> status s = idle ->
  scoreHistory s = Arr items ->
  g <> EmptyString -> isCorrect digest g p = true ->
  let points := pointsEarned (showHint s) (attempts s) in
  handleSubmit digest puzzles ls (setGuess g s)
  = (storedAfterCorrect s points items ls, afterCorrect s points items).
Proof.
  intros Hp Hst Hh Hg Hc points.
  rewrite (handleSubmit_correct puzzles digest ls (setGuess g s) items).
  - by destruct s.
  - unfold dropped. cbn [guess status setGuess]. rewrite Hst. by destruct g.
  - unfold verdict.
    change (currentPuzzle puzzles (setGuess g s)) with (currentPuzzle puzzles s).
    rewrite Hp. cbn [guess setGuess]. by rewrite Hc.
  - done.
Qed.

(** X17.  The award counts the wrong guesses made on the puzzle: after
    any run of non-empty wrong guesses, each typed and submitted in
    turn, a right guess leaves the storage and the state of a correct
    submission whose award is [pointsEarned] of the hint flag and of the
    attempts raised by the number of wrong guesses; the wrong guesses
    themselves change nothing else. *)
Theorem award_counts_the_wrong_guesses digest
    (ls : gmap string string) (s : AppState) (p : puzzle) (items : list scalar)
    (wrongs : list string) (right : string) :
  currentPuzzle puzzles s = Some p -> status s = idle ->
  scoreHistory s = Arr items ->
  Forall (fun g => g <> EmptyString /\ isCorrect digest g p = false) wrongs ->
  right <> EmptyString -> isCorrect digest right p = true ->
  let submit st g := handleSubmit digest puzzles (fst st) (setGuess g (snd st)) in
  let points := pointsEarned (showHint s) (attempts s + Z.of_nat (length wrongs)) in
  submit (fold_left submit wrongs (ls, s)) right
  = (storedAfterCorrect s points items ls, afterCorrect s points items).
Proof.
  intros Hp Hst Hh Hw Hr Hc submit.
  revert s Hp Hst Hh.
  induction Hw as [|g wrongs [Hg Hgc] _ IH]; intros s Hp Hst Hh points.
  - cbn [fold_left]. unfold submit. cbn [fst snd].
    unfold points. cbn [length]. rewrite Z.add_0_r.
    by apply (submit_right_guess digest ls s p).
  - change (fold_left submit (g :: wrongs) (ls, s))
      with (fold_left submit wrongs (handleSubmit digest puzzles ls (setGuess g s))).
    rewrite (submit_wrong_guess digest ls s p g) by done.
    rewrite (IH (afterWrong s)) by done.
    unfold points. cbn [afterWrong showHint attempts length].
    by replace (attempts s + 1 + Z.of_nat (length wrongs))
      with (attempts s + Z.of_nat (S (length wrongs))) by lia.
Qed.

(** X18.  [handleSubmit] writes the keys [gchq-score], [gchq-history]
    and [gchq-puzzles-today] and no other: whatever the outcome of the
    submission, every other key of the storage, the stored date among
    them, is left as it was. *)
Theorem handleSubmit_writes_three_keys_only digest
    (ls : gmap string string) (s : AppState) (k : string) :
  k <> "gchq-score"%string -> k <> "gchq-history"%string ->
  k <> "gchq-puzzles-today"%string ->
  fst (handleSubmit digest puzzles ls s) !! k = ls !! k.
Proof.
  intros K1 K2 K3. unfold handleSubmit.
  destruct (dropped s); [done|].
  destruct (verdict digest puzzles s) as [[|]|]; [|done|done].
  unfold onCorrect. destruct (spread _ _); [|done].
  cbn [fst]. unfold setItem. by rewrite !lookup_insert_ne by done.
Qed.

(** X19.  The puzzle screen and the handler agree: a submission made
    while the submit button is enabled is not dropped by the guard of
    [handleSubmit], and the value shown in the header (line 302) is the
    award a correct submission adds to the score (line 166). *)
Theorem puzzle_screen_agrees_with_handleSubmit digest
    (ls : gmap string string) (s : AppState) :
  submitDisabled s = false ->
  dropped s = false
  /\ currentPuzzleValue s = pointsEarned (showHint s) (attempts s)
  /\ (forall items, scoreHistory s = Arr items ->
        verdict digest puzzles s = Some true ->
        score (snd (handleSubmit digest puzzles ls s)) = score s + currentPuzzleValue s).
Proof.
  intros Hb.
  assert (Hd : dropped s = false).
  { unfold submitDisabled in Hb. unfold dropped.
    destruct (guess s); [done|]. by destruct (status s). }
  split; [done|]. split; [done|].
  intros items Hh Hv.
  by rewrite (handleSubmit_correct puzzles digest ls s items Hd Hv Hh).
Qed.


End SubmitEdges.

Lemma award_counts_the_wrong_guesses_witness :
  let s := Samples.playingOn EmptyString in
  let submit st g :=
    Session.handleSubmit Sha256.digest Samples.pool (fst st) (Session.setGuess g (snd st)) in
  let points :=
    Scoring.pointsEarned (Session.showHint s)
      (Session.attempts s + Z.of_nat (length ["x"; "y"]%string)) in
  submit (fold_left submit ["x"; "y"]%string (∅, s)) " Enigma"%string
  = (Session.storedAfterCorrect s points [] ∅, Session.afterCorrect s points []).
Proof.
  apply (award_counts_the_wrong_guesses Samples.pool Sha256.digest ∅
           (Samples.playingOn EmptyString) Samples.hashed [] ["x"; "y"]%string
           " Enigma"%string).
  - vm_compute. reflexivity.
  - reflexivity.
  - reflexivity.
  - constructor; [split; [intros [=] | vm_compute; reflexivity]|].
    constructor; [split; [intros [=] | vm_compute; reflexivity]|].
    constructor.
  - intros [=].
  - vm_compute. reflexivity.
Defined.

Lemma handleSubmit_writes_three_keys_only_witness :
  fst (Session.handleSubmit Sha256.digest Samples.pool
         (Samples.stored Samples.today "[]") (Samples.playingOn "Enigma"))
    !! "gchq-date"%string
  = Samples.stored Samples.today "[]" !! "gchq-date"%string.
Proof.
  apply (handleSubmit_writes_three_keys_only Samples.pool Sha256.digest
           (Samples.stored Samples.today "[]") (Samples.playingOn "Enigma")
           "gchq-date"); intros [=].
Defined.

Lemma puzzle_screen_agrees_with_handleSubmit_witness :
  let s := Samples.playingOn "Enigma" in
  Session.dropped s = false
  /\ Display.currentPuzzleValue s
     = Scoring.pointsEarned (Session.showHint s) (Session.attempts s)
  /\ (forall items, Session.scoreHistory s = Json.Arr items ->
        Session.verdict Sha256.digest Samples.pool s = Some true ->
        Session.score (snd (Session.handleSubmit Sha256.digest Samples.pool ∅ s))
        = Session.score s + Display.currentPuzzleValue s).
Proof.
  apply (puzzle_screen_agrees_with_handleSubmit Samples.pool Sha256.digest ∅
           (Samples.playingOn "Enigma")).
  reflexivity.
Defined.


(** ** Every page a visit can reach *)
Section ReachableEdges.
Import Outcome Text Json Pool Verify Scoring DayIndex Select Session Display Share.
Context (puzzles : list puzzle) (clock : Clock).
Implicit Types digest : list Byte.byte -> option (list Byte.byte).

Lemma shownPuzzle_current s p :
  shownPuzzle puzzles s = Some p ->
  currentPuzzle puzzles s = Some p /\ p ∈ puzzles /\ id p <> 0.
Proof.
  unfold shownPuzzle, currentPuzzle.
  destruct (currentPuzzleId s) as [i|]; [|done].
  destruct (Z.eqb_spec i 0); [done|]. intros H. split; [done|].
  apply find_some in H as [Hin Hid]. split; [by apply list_elem_of_In|].
  apply Z.eqb_eq in Hid. lia.
Qed.

Lemma render_puzzle s p :
  render puzzles s = PuzzleScreen p ->
  gameState s = playing /\ shownPuzzle puzzles s = Some p /\ formShown puzzles s = true.
Proof.
  unfold render, formShown. destruct (gameState s); try done.
  destruct (shownPuzzle puzzles s); [|done]. by intros [= ->].
Qed.

Lemma progress_shape s :
  0 <= puzzlesToday s <= 4 ->
  progress s = replicate (Z.to_nat (puzzlesToday s)) Solved
               ++ Current :: replicate (4 - Z.to_nat (puzzlesToday s)) Ahead.
Proof.
  intros H. unfold progress.
  assert (puzzlesToday s = 0 \/ puzzlesToday s = 1 \/ puzzlesToday s = 2
          \/ puzzlesToday s = 3 \/ puzzlesToday s = 4) as [E|[E|[E|[E|E]]]] by lia;
    by rewrite E.
Qed.

Lemma intelLabel_shape s :
  0 <= puzzlesToday s <= 4 ->
  intelLabel s ∈ ["Intel 1/5"; "Intel 2/5"; "Intel 3/5"; "Intel 4/5"; "Intel 5/5"]%string.
Proof.
  intros H. unfold intelLabel.
  assert (puzzlesToday s = 0 \/ puzzlesToday s = 1 \/ puzzlesToday s = 2
          \/ puzzlesToday s = 3 \/ puzzlesToday s = 4) as [E|[E|[E|[E|E]]]] by lia;
    rewrite E; vm_compute; repeat constructor.
Qed.

(** X21.  On a page opened with nothing stored, after any events, the
    counter is between 0 and 5, the score between 0 and 500, and the
    daily set has at most five slots; whenever the puzzle screen is
    shown, its puzzle is one of the pool, the header reads Intel 1/5 to
    5/5, and the progress bar shows the solved puzzles, then the
    current one, then the ones ahead. *)
Theorem reachable_page_stays_within_five_puzzles digest (events : list event) :
  exists w,
    play digest puzzles clock events = Done w
    /\ 0 <= puzzlesToday (ui w) <= 5
    /\ 0 <= score (ui w) <= 500
    /\ (length (todaysPuzzles (ui w)) <= 5)%nat
    /\ (forall p, render puzzles (ui w) = PuzzleScreen p ->
          p ∈ puzzles
          /\ intelLabel (ui w)
             ∈ ["Intel 1/5"; "Intel 2/5"; "Intel 3/5"; "Intel 4/5"; "Intel 5/5"]%string
          /\ progress (ui w)
             = replicate (Z.to_nat (puzzlesToday (ui w))) Solved
               ++ Current :: replicate (4 - Z.to_nat (puzzlesToday (ui w))) Ahead).
Proof.
  destruct (play_sound puzzles clock digest events) as (w & Hw & Hs).
  exists w. split; [done|].
  destruct (sound_ranges w Hs) as [Hp Hsc].
  destruct Hs as (l & Hc & Hl & _).
  do 3 (split; [done|]).
  intros p Hr. apply render_puzzle in Hr as (_ & Hsh & Hf).
  apply shownPuzzle_current in Hsh as (_ & Hin & _).
  apply formShown_index in Hf as [H0 H1].
  assert (0 <= puzzlesToday (ui w) <= 4) by lia.
  split; [done|]. split; [by apply intelLabel_shape | by apply progress_shape].
Qed.


(** X23.  The attempts and the hint flag are not stored: reloading the
    page on the same date keeps the counter, the score and the history,
    and forgets the wrong guesses and the hint, so the current puzzle
    is worth 100 again. *)
Theorem reload_forgets_attempts_and_hint digest
    (events : list event) (w : world) (today : string) (now : Z) :
  play digest puzzles clock events = Done w ->
  store w !! "gchq-date"%string = Some today ->
  exists w',
    react digest puzzles clock (Mount today now) w = Done w'
    /\ store w' = store w
    /\ puzzlesToday (ui w') = puzzlesToday (ui w)
    /\ score (ui w') = score (ui w)
    /\ scoreHistory (ui w') = scoreHistory (ui w)
    /\ attempts (ui w') = 0 /\ showHint (ui w') = false
    /\ currentPuzzleValue (ui w') = 100.
Proof.
  intros Hw Hd.
  destruct (play_sound puzzles clock digest events) as (w0 & Hw0 & Hs).
  rewrite Hw in Hw0. injection Hw0 as <-.
  destruct Hs as (l & _ & _ & Hp).
  unfold react. rewrite (load_persisted _ _ _ _ _ _ _ Hp).
  rewrite bool_decide_eq_true_2 by done.
  eexists. split; [done|]. cbn [store ui].
  by destruct (5 <=? puzzlesToday (ui w)), (0 <? puzzlesToday (ui w)).
Qed.

(** X24.  After the fifth puzzle the closing screen offers the scoring
    rules, and the rules screen offers to begin: taking both leaves the
    page in [playing] with no sixth puzzle to show, so the render
    returns [null], and from that blank page no event but a reload
    changes anything. *)
Theorem rules_after_the_last_puzzle_show_a_blank_page digest
    (events : list event) (w : world) :
  play digest puzzles clock events = Done w ->
  mounted w = true -> gameState (ui w) = done_for_day -> puzzlesToday (ui w) = 5 ->
  exists w',
    play digest puzzles clock (events ++ [ViewRules; Acknowledge]) = Done w'
    /\ store w' = store w
    /\ gameState (ui w') = playing
    /\ render puzzles (ui w') = Blank
    /\ (forall e, match e with Mount _ _ => False | _ => True end ->
          react digest puzzles clock e w' = Done w').
Proof.
  intros Hw Hm Hg Hp.
  destruct (play_sound puzzles clock digest events) as (w0 & Hw0 & Hs).
  rewrite Hw in Hw0. injection Hw0 as <-.
  destruct Hs as (l & _ & Hl & _).
  destruct w as [ls s m]. cbn [ui store mounted] in *. subst m.
  assert (Hsh : forall g, shownPuzzle puzzles (setGameState g s) = None).
  { intros g. unfold shownPuzzle, currentPuzzleId, array_get.
    cbn [todaysPuzzles puzzlesToday setGameState]. rewrite Hp. cbn match.
    rewrite lookup_ge_None_2; [done|]. by change (Z.to_nat 5) with 5%nat. }
  exists (World ls (setGameState playing s) true).
  split.
  { unfold play. rewrite fold_left_app. fold (play digest puzzles clock events).
    rewrite Hw. cbn [fold_left bind react ui store mounted]. rewrite Hg.
    cbn [gameState setGameState]. by destruct s. }
  split; [done|]. split; [done|]. split.
  { unfold render. cbn [ui]. by rewrite Hsh. }
  intros e He.
  destruct e; try done; unfold react, formShown; cbn [ui store mounted andb];
    rewrite ?Hsh; done.
Qed.

End ReachableEdges.

Lemma reload_forgets_attempts_and_hint_witness :
  let w := Cases.hintedWorld in
  exists w',
    Session.react Sha256.digest Samples.pool (DayIndex.fixedZone 0)
      (Session.Mount Samples.today Samples.noon) w = Outcome.Done w'
    /\ Session.store w' = Session.store w
    /\ Session.puzzlesToday (Session.ui w') = Session.puzzlesToday (Session.ui w)
    /\ Session.score (Session.ui w') = Session.score (Session.ui w)
    /\ Session.scoreHistory (Session.ui w') = Session.scoreHistory (Session.ui w)
    /\ Session.attempts (Session.ui w') = 0
    /\ Session.showHint (Session.ui w') = false
    /\ Display.currentPuzzleValue (Session.ui w') = 100.
Proof.
  apply (reload_forgets_attempts_and_hint Samples.pool (DayIndex.fixedZone 0)
           Sha256.digest Cases.hinted Cases.hintedWorld Samples.today Samples.noon).
  - vm_compute. reflexivity.
  - vm_compute. reflexivity.
Defined.

Lemma rules_after_the_last_puzzle_show_a_blank_page_witness :
  let w := Cases.solvedWorld in
  exists w',
    Session.play Sha256.digest Samples.pool (DayIndex.fixedZone 0)
      (Cases.allSolved ++ [Session.ViewRules; Session.Acknowledge]) = Outcome.Done w'
    /\ Session.store w' = Session.store w
    /\ Session.gameState (Session.ui w') = Session.playing
    /\ Display.render Samples.pool (Session.ui w') = Display.Blank
    /\ (forall e, match e with Session.Mount _ _ => False | _ => True end ->
          Session.react Sha256.digest Samples.pool (DayIndex.fixedZone 0) e w'
          = Outcome.Done w').
Proof.
  apply (rules_after_the_last_puzzle_show_a_blank_page Samples.pool
           (DayIndex.fixedZone 0) Sha256.digest Cases.allSolved Cases.solvedWorld).
  - vm_compute. reflexivity.
  - reflexivity.
  - reflexivity.
  - reflexivity.
Defined.

(** ** The share text *)
Section ShareEdges.
Import Text Json Verify Session Share.

Lemma append_inv_head (a b c : string) : append a b = append a c -> b = c.
Proof.
  induction a as [|ch a IH]; [done|]. rewrite !append_cons. intros [= H]. by apply IH.
Qed.

(** X25.  The row of squares in the share text spells the history: two
    histories of awards that print the same squares are the same list,
    square for square. *)
Theorem share_blocks_spell_the_awards (l1 l2 : list Z) :
  Forall award l1 -> Forall award l2 ->
  blocks (Arr (map Num l1)) = blocks (Arr (map Num l2)) -> l1 = l2.
Proof.
  intros H1. revert l2. unfold blocks.
  induction H1 as [|x l1 Hx _ IH]; intros l2 H2 [= E].
  - destruct H2 as [|y l2 Hy _]; [done|]. exfalso.
    cbn [map join] in E.
    destruct Hy as [->|[->|[->|[->| ->]]]]; by vm_compute in E.
  - destruct H2 as [|y l2 Hy H2].
    { exfalso. cbn [map join] in E.
      destruct Hx as [->|[->|[->|[->| ->]]]]; by vm_compute in E. }
    cbn [map join] in E.
    assert (x = y /\ join (map block (map Num l1)) = join (map block (map Num l2)))
      as [-> E'].
    { destruct Hx as [->|[->|[->|[->| ->]]]], Hy as [->|[->|[->|[->| ->]]]];
        first [ split; [reflexivity|]; by apply append_inv_head in E
              | exfalso; cbn [block Z.eqb Pos.eqb] in E; rewrite !append_cons in E;
                discriminate E ]. }
    f_equal. apply IH; [done|]. by f_equal.
Qed.

Lemma share_blocks_spell_the_awards_witness : [100; 0; 25] = [100; 0; 25].
Proof.
  apply (share_blocks_spell_the_awards [100; 0; 25] [100; 0; 25]).
  - repeat constructor; unfold award; lia.
  - repeat constructor; unfold award; lia.
  - reflexivity.
Defined.

Lemma rank_top sc : rank sc = rank 500 <-> sc = 500.
Proof.
  split; [|by intros ->]. unfold rank.
  destruct (Z.eqb_spec sc 500); [done|].
  destruct (400 <=? sc); [by intros [=]|]. destruct (200 <=? sc); by intros [=].
Qed.

Lemma perfect_history l :
  Forall award l -> (length l <= 5)%nat -> total l = 500 ->
  l = [100; 100; 100; 100; 100].
Proof.
  intros Ha Hl Ht. pose proof (total_bounds l Ha) as Hb.
  assert (length l = 5%nat) as E by lia.
  destruct l as [|a [|b [|c [|d [|e [|? ?]]]]]]; try done.
  repeat match goal with
         | H : Forall award (_ :: _) |- _ => apply Forall_cons in H as [?%award_bounds H]
         end.
  cbn in Ht. repeat f_equal; lia.
Qed.

(** X26.  On a consistent session the top rank is shared exactly when
    all five puzzles were solved at the first attempt without a hint;
    and the rank is never the bare [Field Agent] the variable is
    initialised with. *)
Theorem top_rank_needs_five_first_tries (p sc : Z) (h : value) (l : list Z) :
  consistent p sc h l ->
  (rank sc = "Double-O Status 🕵️‍♂️"%string <-> l = [100; 100; 100; 100; 100])
  /\ rank sc <> "Field Agent"%string.
Proof.
  intros (Hh & Ha & Hs & Hp & Hl). split.
  - change "Double-O Status 🕵️‍♂️"%string with (rank 500). rewrite rank_top. split.
    + intros E. apply perfect_history; [done | done | lia].
    + intros ->. by rewrite Hs.
  - unfold rank. destruct (sc =? 500); [by intros [=]|].
    destruct (400 <=? sc); [by intros [=]|]. destruct (200 <=? sc); by intros [=].
Qed.

Lemma top_rank_needs_five_first_tries_witness :
  (rank 175 = "Double-O Status 🕵️‍♂️"%string <-> [100; 75] = [100; 100; 100; 100; 100])
  /\ rank 175 <> "Field Agent"%string.
Proof.
  apply (top_rank_needs_five_first_tries 2 175 (Arr [Num 100; Num 75]) [100; 75]).
  split; [reflexivity|]. split; [repeat constructor; unfold award; lia|].
  split; [reflexivity|]. split; [reflexivity|]. cbn. lia.
Defined.

End ShareEdges.

(** ** Doubles: the quotients the engine floors *)
Section DoubleEdges.
Import Outcome Text Json Pool Session Display JsDouble DayIndex DayQuotient Countdown.
Local Open Scope Q_scope.

Lemma Qfloor_unique (y : Q) (q : Z) :
  inject_Z q <= y -> y < inject_Z q + 1 -> Qfloor y = q.
Proof.
  intros Hlo Hhi.
  pose proof (Qfloor_le y) as H1. pose proof (Qlt_floor y) as H2.
  assert (inject_Z (Qfloor y) < inject_Z (q + 1)).
  { rewrite inject_Z_plus. eapply Qle_lt_trans; [exact H1|]. exact Hhi. }
  assert (inject_Z q < inject_Z (Qfloor y + 1)).
  { eapply Qle_lt_trans; [exact Hlo|]. exact H2. }
  rewrite <- Zlt_Qlt in *. lia.
Qed.

Lemma floor_of_close_quotient (a b : Z) (y e : Q) :
  (0 < b)%Z -> (a mod b <> 0)%Z ->
  0 <= e -> Qabs (inject_Z a) * e < 1 ->
  Qabs (y - inject_Z a / inject_Z b) <= Qabs (inject_Z a / inject_Z b) * e ->
  Qfloor y = (a / b)%Z.
Proof.
  intros Hb Hr He Hae Hy.
  set (X := inject_Z a / inject_Z b) in *.
  assert (HB : 0 < inject_Z b) by (change 0 with (inject_Z 0); by rewrite <- Zlt_Qlt).
  assert (HX : X * inject_Z b == inject_Z a).
  { unfold X. field. intros E. rewrite E in HB. by apply Qlt_irrefl in HB. }
  pose proof (Z.div_mod a b ltac:(lia)) as Hdm.
  pose proof (Z.mod_pos_bound a b Hb) as Hm.
  set (q := (a / b)%Z) in *. set (r := (a mod b)%Z) in *.
  assert (Ha : inject_Z a == inject_Z b * inject_Z q + inject_Z r).
  { rewrite <- inject_Z_mult, <- inject_Z_plus. by rewrite <- Hdm. }
  assert (Hr1 : 1 <= inject_Z r).
  { change 1 with (inject_Z 1). rewrite <- Zle_Qle. lia. }
  assert (Hr2 : inject_Z r + 1 <= inject_Z b).
  { change 1 with (inject_Z 1). rewrite <- inject_Z_plus, <- Zle_Qle. lia. }
  assert (HabsX : Qabs X * inject_Z b == Qabs (inject_Z a)).
  { rewrite <- HX, Qabs_Qmult. rewrite (Qabs_pos (inject_Z b)); [reflexivity|]. by apply Qlt_le_weak. }
  apply Qabs_Qle_condition in Hy as [Hy1 Hy2].
  set (A := Qabs (inject_Z a)) in *. set (AX := Qabs X) in *.
  assert (0 <= AX) by apply Qabs_nonneg.
  apply Qfloor_unique.
  - apply Qle_trans with (X - AX * e); [|lra].
    apply (Qmult_le_r _ _ (inject_Z b)); [done|].
    nra.
  - apply Qle_lt_trans with (X + AX * e); [lra|].
    apply (Qmult_lt_r _ _ (inject_Z b)); [done|].
    nra.
Qed.

Lemma ulpHalf_value : ulpHalf == 1 # 9007199254740992.
Proof. reflexivity. Qed.

Lemma tiny_value : Qpower 2 (-1022) * inject_Z (2 ^ 60) <= 1.
Proof. vm_compute. intros [=]. Qed.

Lemma huge_value : inject_Z (2 ^ 60) <= Qpower 2 1023.
Proof. vm_compute. intros [=]. Qed.

Lemma normal_between (x : Q) :
  1 <= Qabs x * inject_Z (2 ^ 60) -> Qabs x <= inject_Z (2 ^ 60) -> normal x.
Proof.
  intros Hlo Hhi. split.
  - pose proof tiny_value.
    assert (0 < inject_Z (2 ^ 60)) by done.
    apply (Qmult_le_r _ _ (inject_Z (2 ^ 60))); [done|]. lra.
  - pose proof huge_value. lra.
Qed.

Lemma Qabs_inject (a : Z) : Qabs (inject_Z a) == inject_Z (Z.abs a).
Proof. reflexivity. Qed.

(** [Math.floor(a / b)] for integers: the floor of the rounded quotient
    is the integer quotient. *)
Lemma floor_of_quotient div (a b : Z) :
  correctlyRounded div ->
  (Z.abs a < 2 ^ 53)%Z -> (0 < b < 2 ^ 53)%Z ->
  Qfloor (div (inject_Z a) (inject_Z b)) = (a / b)%Z.
Proof.
  intros Hdiv Ha Hb.
  assert (HB : 0 < inject_Z b) by (change 0 with (inject_Z 0); rewrite <- Zlt_Qlt; lia).
  assert (HB2 : inject_Z b <= inject_Z (2 ^ 53)) by (rewrite <- Zle_Qle; lia).
  assert (HB1 : 1 <= inject_Z b).
  { change 1 with (inject_Z 1). rewrite <- Zle_Qle. lia. }
  assert (Hnz : ~ inject_Z b == 0) by (intros E; rewrite E in HB; by apply Qlt_irrefl in HB).
  destruct (Z.eq_dec (a mod b)%Z 0%Z) as [E|E].
  - assert (Hq : inject_Z a / inject_Z b == inject_Z (a / b)).
    { pose proof (Z.div_mod a b ltac:(lia)) as Hdm. rewrite E, Z.add_0_r in Hdm.
      rewrite Hdm at 1. rewrite inject_Z_mult. by field. }
    assert (Hn : (Z.abs (a / b) <= 2 ^ 53)%Z).
    { pose proof (Z.div_mod a b ltac:(lia)). rewrite E in *. nia. }
    rewrite (Qfloor_comp _ _ (div_exact div Hdiv _ _ _ Hnz Hq Hn)).
    apply Qfloor_Z.
  - assert (Ha1 : (1 <= Z.abs a)%Z).
    { destruct (Z.eq_dec a 0%Z) as [->|]; [|lia]. by rewrite Z.mod_0_l in E by lia. }
    assert (HA1 : 1 <= Qabs (inject_Z a)).
    { rewrite Qabs_inject. change 1 with (inject_Z 1). by rewrite <- Zle_Qle. }
    assert (HA2 : Qabs (inject_Z a) + 1 <= inject_Z (2 ^ 53)).
    { rewrite Qabs_inject. change 1 with (inject_Z 1).
      rewrite <- inject_Z_plus, <- Zle_Qle. lia. }
    assert (HabsX : Qabs (inject_Z a / inject_Z b) * inject_Z b == Qabs (inject_Z a)).
    { unfold Qdiv. rewrite Qabs_Qmult, Qabs_Qinv, (Qabs_pos (inject_Z b)) by lra. by field. }
    apply (floor_of_close_quotient a b _ ulpHalf); [lia | done | done | |].
    + rewrite ulpHalf_value.
      change (inject_Z (2 ^ 53)) with 9007199254740992 in HA2. lra.
    + apply (div_close div Hdiv); [done|].
      set (AX := Qabs (inject_Z a / inject_Z b)) in *.
      assert (0 <= AX) by apply Qabs_nonneg.
      change (inject_Z (2 ^ 53)) with 9007199254740992 in *.
      assert (0 <= AX * (9007199254740992 - inject_Z b)) by (apply Qmult_le_0_compat; lra).
      assert (0 <= AX * (inject_Z b - 1)) by (apply Qmult_le_0_compat; lra).
      apply normal_between; change (inject_Z (2 ^ 60)) with 1152921504606846976;
        fold AX; clearbody AX; lra.
Qed.

(** [Math.floor(y % m)] for a double [y >= 0] and an integer [m > 0]. *)
Lemma floor_of_rem (y : Q) (m : Z) :
  0 <= y -> (0 < m)%Z ->
  Qfloor (rem y (inject_Z m)) = (Qfloor y mod m)%Z.
Proof.
  intros Hy Hm. unfold rem.
  assert (HM : 0 < inject_Z m) by (change 0 with (inject_Z 0); by rewrite <- Zlt_Qlt).
  pose proof (Qfloor_le y) as F1. pose proof (Qlt_floor y) as F2.
  rewrite inject_Z_plus in F2. change (inject_Z 1) with 1 in F2.
  set (f := Qfloor y) in *.
  pose proof (Z.div_mod f m ltac:(lia)) as Hdm.
  pose proof (Z.mod_pos_bound f m Hm) as Hr.
  assert (Hf : inject_Z f == inject_Z m * inject_Z (f / m) + inject_Z (f mod m)).
  { rewrite <- inject_Z_mult, <- inject_Z_plus. by rewrite <- Hdm. }
  assert (Hr1 : 0 <= inject_Z (f mod m)).
  { change 0 with (inject_Z 0). rewrite <- Zle_Qle. lia. }
  assert (Hr2 : inject_Z (f mod m) + 1 <= inject_Z m).
  { change 1 with (inject_Z 1). rewrite <- inject_Z_plus, <- Zle_Qle. lia. }
  assert (Hq : 0 <= y / inject_Z m).
  { apply Qle_shift_div_l; [done|]. lra. }
  assert (Ht : trunc (y / inject_Z m) = (f / m)%Z).
  { unfold trunc. destruct (Qle_bool 0 (y / inject_Z m)) eqn:E.
    - apply Qfloor_unique.
      + apply Qle_shift_div_l; [done|]. lra.
      + apply Qlt_shift_div_r; [done|]. lra.
    - apply not_true_iff_false in E. rewrite Qle_bool_iff in E. done. }
  rewrite Ht. apply Qfloor_unique; lra.
Qed.

(** [diff / 1000 / 60]: two roundings. *)
Lemma floor_of_two_quotients div (a : Z) :
  correctlyRounded div -> (0 <= a < 2 ^ 50)%Z ->
  0 <= div (div (inject_Z a) 1000) 60
  /\ Qfloor (div (div (inject_Z a) 1000) 60) = (a / 60000)%Z.
Proof.
  intros Hdiv Ha.
  destruct (Z.eq_dec (a mod 60000)%Z 0%Z) as [E|E].
  - pose proof (Z.div_mod a 60000 ltac:(lia)) as Hdm. rewrite E, Z.add_0_r in Hdm.
    set (j := (a / 60000)%Z) in *.
    assert (E1 : div (inject_Z a) 1000 == inject_Z (60 * j)).
    { apply (div_exact div Hdiv); [done | | lia].
      rewrite Hdm, !inject_Z_mult. by field. }
    assert (E2 : div (div (inject_Z a) 1000) 60 == inject_Z j).
    { rewrite (div_proper div Hdiv _ (inject_Z (60 * j)) 60 60 E1 ltac:(reflexivity)).
      apply (div_exact div Hdiv); [done | | lia].
      rewrite inject_Z_mult. by field. }
    rewrite (Qfloor_comp _ _ E2), Qfloor_Z. split; [|done].
    rewrite E2. change 0 with (inject_Z 0). rewrite <- Zle_Qle. lia.
  - assert (Ha1 : (1 <= a)%Z).
    { destruct (Z.eq_dec a 0%Z) as [->|]; [done | lia]. }
    assert (HA1 : 1 <= inject_Z a).
    { change 1 with (inject_Z 1). by rewrite <- Zle_Qle. }
    assert (HA2 : inject_Z a <= 1125899906842624).
    { change 1125899906842624 with (inject_Z (2 ^ 50)). rewrite <- Zle_Qle. lia. }
    set (A := inject_Z a) in *.
    set (X1 := A / 1000). set (y1 := div A 1000).
    set (Y := y1 / 60). set (y2 := div y1 60).
    set (X2 := A / inject_Z 60000).
    assert (HX1 : X1 * 1000 == A) by (unfold X1; by field).
    assert (HX2 : X2 * 60000 == A) by (unfold X2; by field).
    assert (HY : Y * 60 == y1) by (unfold Y; by field).
    assert (C1 : Qabs (y1 - X1) <= Qabs X1 * ulpHalf).
    { apply (div_close div Hdiv); [done|].
      fold X1.
      apply normal_between; rewrite (Qabs_pos X1) by lra;
        change (inject_Z (2 ^ 60)) with 1152921504606846976; lra. }
    rewrite ulpHalf_value, (Qabs_pos X1) in C1 by lra.
    apply Qabs_Qle_condition in C1 as [C1a C1b].
    assert (HY0 : 0 <= Y) by lra.
    assert (C2 : Qabs (y2 - Y) <= Qabs Y * ulpHalf).
    { apply (div_close div Hdiv); [done|].
      fold Y. apply normal_between; rewrite (Qabs_pos Y) by done;
        change (inject_Z (2 ^ 60)) with 1152921504606846976; lra. }
    rewrite ulpHalf_value, (Qabs_pos Y) in C2 by done.
    apply Qabs_Qle_condition in C2 as [C2a C2b].
    split; [fold y1 y2; lra|].
    apply (floor_of_close_quotient a 60000 y2 (3 # 9007199254740992)); [done | done | done | |].
    + rewrite (Qabs_pos (inject_Z a)) by (fold A; lra). fold A. lra.
    + fold A X2. rewrite (Qabs_pos X2) by lra.
      apply Qabs_Qle_condition. split; lra.
Qed.
Lemma roundEven_close (s : Q) :
  Qabs (inject_Z (roundEven s) - s) <= 1 # 2.
Proof.
  unfold roundEven.
  pose proof (Qfloor_le s) as F1. pose proof (Qlt_floor s) as F2.
  rewrite inject_Z_plus in F2. change (inject_Z 1) with 1 in F2.
  set (f := Qfloor s) in *.
  apply Qabs_Qle_condition.
  destruct (Qcompare_spec (s - inject_Z f) (1 # 2)) as [E|E|E].
  - destruct (Z.even f); [|rewrite inject_Z_plus; change (inject_Z 1) with 1]; split; lra.
  - split; lra.
  - rewrite inject_Z_plus. change (inject_Z 1) with 1. split; lra.
Qed.

Lemma roundEven_integer (s : Q) (k : Z) : s == inject_Z k -> roundEven s = k.
Proof.
  intros E. unfold roundEven.
  rewrite (Qfloor_comp _ _ E), Qfloor_Z.
  destruct (Qcompare_spec (s - inject_Z k) (1 # 2)) as [H|H|H]; [lra | done | lra].
Qed.

Lemma ratio_bracket (P D a b t : Q) :
  0 < a -> 0 < b -> a <= P -> P < 2 * a -> b <= D -> D < 2 * b ->
  t * (D * a) == 2 * (P * b) -> 1 <= t /\ t < 4.
Proof.
  intros Ha Hb H1 H2 H3 H4 E.
  assert (0 < D * a) by nra.
  split.
  - apply (Qmult_le_r _ _ (D * a)); [done|]. rewrite E. nra.
  - apply (Qmult_lt_r _ _ (D * a)); [done|]. rewrite E. nra.
Qed.

Lemma log2_bracket (n : Z) :
  (0 < n)%Z ->
  0 < inject_Z (2 ^ Z.log2 n) /\ inject_Z (2 ^ Z.log2 n) <= inject_Z n
  /\ inject_Z n < 2 * inject_Z (2 ^ Z.log2 n).
Proof.
  intros Hn. pose proof (Z.log2_spec n Hn) as [L U].
  pose proof (Z.log2_nonneg n).
  rewrite Z.pow_succ_r in U by done.
  change 0 with (inject_Z 0). change 2 with (inject_Z 2).
  rewrite <- inject_Z_mult, <- !Zlt_Qlt, <- Zle_Qle. lia.
Qed.

Lemma scale_bracket (x : Q) :
  0 < x ->
  0 < scale x /\ 4503599627370496 <= x * scale x /\ x * scale x < 9007199254740992.
Proof.
  intros Hx.
  assert (Hp : (0 < Qnum x)%Z) by (by destruct x as [[|p|p] q]).
  destruct (log2_bracket (Qnum x) Hp) as (Ha & A1 & A2).
  destruct (log2_bracket (Zpos (Qden x)) ltac:(done)) as (Hb & B1 & B2).
  unfold scale. rewrite inject_Z_mult.
  set (a := inject_Z (2 ^ Z.log2 (Qnum x))) in *.
  set (b := inject_Z (2 ^ Z.log2 (Z.pos (Qden x)))) in *.
  set (P := inject_Z (Qnum x)) in *. set (D := inject_Z (Z.pos (Qden x))) in *.
  assert (HD : 0 < D) by lra.
  assert (Ex : x == P / D) by (unfold P, D; destruct x; apply Qmake_Qdiv).
  change (inject_Z (2 ^ 53)) with 9007199254740992.
  set (c0 := 9007199254740992 * b / a).
  assert (Hc0 : 0 < c0).
  { unfold c0. apply Qlt_shift_div_l; [done|]. clear - Hb. lra. }
  set (t := x * c0 / 4503599627370496).
  assert (Et : t * (D * a) == 2 * (P * b)).
  { unfold t, c0. rewrite Ex. field. split; lra. }
  destruct (ratio_bracket P D a b t Ha Hb A1 A2 B1 B2 Et) as [T1 T2].
  assert (Es : x * c0 == t * 4503599627370496) by (unfold t; field).
  destruct (Qle_bool 9007199254740992 (x * c0)) eqn:C.
  - apply Qle_bool_iff in C.
    assert (Eh : c0 / 2 == c0 * (1 # 2)) by field. rewrite Eh.
    split; [lra|]. rewrite Qmult_assoc, Es. lra.
  - apply not_true_iff_false in C. rewrite Qle_bool_iff in C.
    apply Qnot_le_lt in C. split; [done|]. lra.
Qed.

Lemma roundPositive_close (x : Q) :
  0 < x -> Qabs (roundPositive x - x) <= x * (1 # 9007199254740992).
Proof.
  intros Hx. destruct (scale_bracket x Hx) as (Hc & S1 & S2).
  unfold roundPositive.
  pose proof (roundEven_close (x * scale x)) as Hm.
  set (c := scale x) in *. set (m := inject_Z (roundEven (x * c))) in *.
  apply Qabs_Qle_condition in Hm as [M1 M2].
  assert (Er : m / c * c == m) by (field; lra).
  set (r := m / c) in *.
  apply Qabs_Qle_condition. split.
  - apply (Qmult_le_r _ _ c); [done|]. nra.
  - apply (Qmult_le_r _ _ c); [done|]. nra.
Qed.

Lemma roundPositive_exact (n : Z) :
  (0 < n <= 2 ^ 53)%Z -> roundPositive (inject_Z n) == inject_Z n.
Proof.
  intros Hn.
  assert (Hx : 0 < inject_Z n) by (change 0 with (inject_Z 0); rewrite <- Zlt_Qlt; lia).
  destruct (scale_bracket (inject_Z n) Hx) as (Hc & S1 & S2).
  pose proof (Z.log2_spec n ltac:(lia)) as [L U].
  pose proof (Z.log2_nonneg n) as L0.
  assert (L53 : (Z.log2 n <= 53)%Z).
  { rewrite <- (Z.log2_pow2 53) by lia. apply Z.log2_le_mono. lia. }
  assert (Ec : scale (inject_Z n) == inject_Z (2 ^ 52) / inject_Z (2 ^ Z.log2 n)).
  { unfold scale. cbn [Qnum Qden inject_Z]. change (Z.log2 1) with 0%Z.
    rewrite Z.pow_0_r, Z.mul_1_r.
    assert (0 < inject_Z (2 ^ Z.log2 n)) by (change 0 with (inject_Z 0); rewrite <- Zlt_Qlt; lia).
    assert (C : Qle_bool (inject_Z (2 ^ 53))
                  (inject_Z n * (inject_Z (2 ^ 53) / inject_Z (2 ^ Z.log2 n))) = true).
    { apply Qle_bool_iff.
      assert (inject_Z (2 ^ Z.log2 n) <= inject_Z n) by (rewrite <- Zle_Qle; lia).
      apply (Qmult_le_r _ _ (inject_Z (2 ^ Z.log2 n))); [done|].
      assert (inject_Z n * (inject_Z (2 ^ 53) / inject_Z (2 ^ Z.log2 n))
                * inject_Z (2 ^ Z.log2 n) == inject_Z n * inject_Z (2 ^ 53)) as ->
        by (field; lra).
      change (inject_Z (2 ^ 53)) with 9007199254740992. lra. }
    rewrite C. change (inject_Z (2 ^ 53)) with (2 * inject_Z (2 ^ 52)). field. lra. }
  assert (Hk : exists k : Z, (n * 2 ^ 52 = k * 2 ^ Z.log2 n)%Z).
  { destruct (Z.eq_dec (Z.log2 n) 53%Z) as [E|E].
    - exists (2 ^ 52)%Z. rewrite E in *. lia.
    - exists (n * 2 ^ (52 - Z.log2 n))%Z.
      rewrite <- Z.mul_assoc, <- Z.pow_add_r by lia. f_equal. f_equal. lia. }
  destruct Hk as (k & Hk).
  assert (HA : 0 < inject_Z (2 ^ Z.log2 n)).
  { change 0 with (inject_Z 0). rewrite <- Zlt_Qlt. lia. }
  assert (Es : inject_Z n * scale (inject_Z n) == inject_Z k).
  { rewrite Ec. apply (Qmult_inj_r _ _ (inject_Z (2 ^ Z.log2 n))); [lra|].
    transitivity (inject_Z n * inject_Z (2 ^ 52)); [field; lra|].
    by rewrite <- !inject_Z_mult, Hk. }
  unfold roundPositive. rewrite (roundEven_integer _ k Es).
  rewrite <- Es. field. lra.
Qed.

Lemma fl_proper (x y : Q) : x == y -> fl x = fl y.
Proof. intros E. unfold fl. by rewrite (Qred_complete x y E). Qed.

Lemma fl_exact (n : Z) : (Z.abs n <= 2 ^ 53)%Z -> fl (inject_Z n) == inject_Z n.
Proof.
  intros Hn. unfold fl. rewrite inject_Z_Qred.
  destruct n as [|p|p]; cbn [inject_Z Qnum].
  - reflexivity.
  - apply (roundPositive_exact (Z.pos p)). lia.
  - change (- (Z.neg p # 1)) with (inject_Z (Z.pos p)).
    rewrite (roundPositive_exact (Z.pos p)) by lia. reflexivity.
Qed.

Lemma fl_close (x : Q) : Qabs (fl x - x) <= Qabs x * (1 # 9007199254740992).
Proof.
  unfold fl. pose proof (Qred_correct x) as E.
  set (r := Qred x) in *. rewrite <- E. clearbody r. clear E x.
  destruct r as [[|p|p] q]; cbn [Qnum].
  - assert (0 # q == 0) as -> by reflexivity.
    by vm_compute.
  - assert (H : 0 < Z.pos p # q) by reflexivity.
    rewrite (Qabs_pos (Z.pos p # q)) by lra.
    by apply roundPositive_close.
  - assert (H : 0 < - (Z.neg p # q)) by reflexivity.
    pose proof (roundPositive_close _ H) as C.
    set (y := - (Z.neg p # q)) in *.
    assert (Ey : Z.neg p # q == - y) by (unfold y; ring).
    rewrite Ey, Qabs_opp, (Qabs_pos y) by lra.
    apply Qabs_Qle_condition in C as [C1 C2].
    apply Qabs_Qle_condition. split; lra.
Qed.

Lemma divide_correctlyRounded : correctlyRounded divide.
Proof.
  split.
  - intros x x' y y' Hx Hy. unfold divide.
    rewrite (fl_proper (x / y) (x' / y')); [reflexivity|]. by rewrite Hx, Hy.
  - intros x y n _ E Hn. unfold divide.
    rewrite (fl_proper _ _ E). by apply fl_exact.
  - intros x y _ _. unfold divide. rewrite ulpHalf_value. apply fl_close.
Qed.
End DoubleEdges.

(** ** What the page prints: the countdown and the puzzle number *)
Section LabelEdges.
Import Outcome Text Json Pool Session Display JsDouble DayIndex DayQuotient Countdown.

Lemma length_filler k c : String.length (string_of_list_ascii (replicate k c)) = k.
Proof. induction k as [|k IH]; [done|]. cbn. by rewrite IH. Qed.

Lemma padStart_length n c s :
  String.length (padStart n c s) = Nat.max n (String.length s).
Proof. unfold padStart. rewrite length_append, length_filler. lia. Qed.

Lemma Number_toString_two (n : Z) :
  0 <= n < 100 -> (1 <= String.length (Number_toString n) <= 2)%nat.
Proof.
  intros Hn. rewrite <- (Z2Nat.id n) by lia.
  assert (Hk : (Z.to_nat n < 100)%nat) by lia.
  generalize dependent (Z.to_nat n). clear. intros k Hk.
  do 100 (destruct k as [|k]; [vm_compute; lia|]). lia.
Qed.

Lemma quotient_nonneg div (a b : Z) :
  correctlyRounded div -> 0 <= a < 2 ^ 53 -> 0 < b < 2 ^ 53 ->
  (0 <= div (inject_Z a) (inject_Z b))%Q.
Proof.
  intros Hdiv Ha Hb.
  pose proof (floor_of_quotient div a b Hdiv ltac:(lia) Hb) as F.
  pose proof (Qfloor_le (div (inject_Z a) (inject_Z b))) as L. rewrite F in L.
  eapply Qle_trans; [|exact L].
  change 0%Q with (inject_Z 0). rewrite <- Zle_Qle. by apply Z.div_pos; lia.
Qed.

Lemma two_digits_length (n : Z) :
  0 <= n < 100 -> String.length (padStart 2 "0" (Number_toString n)) = 2%nat.
Proof.
  intros Hn. rewrite padStart_length. pose proof (Number_toString_two n Hn). lia.
Qed.

(** X28.  For any [diff] from 0 up to [2^50] milliseconds, the
    countdown prints [HH:MM:SS], eight characters, where the three
    fields are the whole seconds of [diff] split into hours, minutes
    and seconds, the hours taken modulo 24: the roundings of the four
    double divisions never reach the floors. *)
Theorem countdown_shows_the_time_left (diff : Z) :
  0 <= diff < 2 ^ 50 ->
  let secs := diff / 1000 in
  let two n := padStart 2 "0" (Number_toString n) in
  let h := secs / 3600 mod 24 in
  let m := secs / 60 mod 60 in
  let s := secs mod 60 in
  calculateTimeLeft diff
  = append (two h) (append ":" (append (two m) (append ":" (two s))))
  /\ String.length (calculateTimeLeft diff) = 8%nat
  /\ h * 3600 + m * 60 + s = secs mod 86400.
Proof.
  intros Hd secs two h m s.
  pose proof divide_correctlyRounded as Hdiv. set (div := divide) in Hdiv.
  assert (Eh : twoDigits (div (inject_Z diff) (inject_Z (1000 * 60 * 60))) 24 = two h).
  { unfold twoDigits. rewrite floor_of_rem; [| by apply quotient_nonneg; (done || lia) | done].
    rewrite floor_of_quotient by (done || lia).
    unfold two, h, secs. by rewrite Z.div_div by lia. }
  assert (Em : twoDigits (div (div (inject_Z diff) 1000%Q) 60%Q) 60 = two m).
  { destruct (floor_of_two_quotients div diff Hdiv Hd) as [N F].
    unfold twoDigits. rewrite floor_of_rem by done. rewrite F.
    unfold two, m, secs. by rewrite Z.div_div by lia. }
  assert (Es : twoDigits (div (inject_Z diff) 1000%Q) 60 = two s).
  { unfold twoDigits. change 1000%Q with (inject_Z 1000).
    rewrite floor_of_rem; [| by apply (quotient_nonneg div diff 1000); (done || lia) | done].
    by rewrite (floor_of_quotient div diff 1000) by (done || lia). }
  assert (E : calculateTimeLeft diff
              = append (two h) (append ":" (append (two m) (append ":" (two s))))).
  { unfold calculateTimeLeft. fold div. by rewrite Eh, Em, Es. }
  split; [exact E|]. split.
  - rewrite E, !length_append.
    pose proof (Z.mod_pos_bound (secs / 3600) 24 ltac:(lia)).
    pose proof (Z.mod_pos_bound (secs / 60) 60 ltac:(lia)).
    pose proof (Z.mod_pos_bound secs 60 ltac:(lia)).
    unfold two. rewrite !two_digits_length by (fold h m s; lia). done.
  - unfold h, m, s. clearbody secs. clear.
    Z.to_euclidean_division_equations. lia.
Qed.

Lemma countdown_shows_the_time_left_witness :
  calculateTimeLeft 3723456 = "01:02:03"%string
  /\ String.length (calculateTimeLeft 3723456) = 8%nat
  /\ 3723456 / 1000 / 3600 mod 24 * 3600 + 3723456 / 1000 / 60 mod 60 * 60
       + 3723456 / 1000 mod 60 = 3723456 / 1000 mod 86400.
Proof.
  apply (countdown_shows_the_time_left 3723456).
  vm_compute. split; [intros [=] | reflexivity].
Defined.
Lemma parseInt10_digit c r :
  isDigit c = true -> parseInt10 (String c r) = parseDigits (String c r).
Proof.
  intros H. unfold parseInt10. cbn [trimStart].
  destruct c as [[] [] [] [] [] [] [] []]; try done.
Qed.

Lemma Number_toString_digits n :
  0 <= n ->
  exists d, Number_toString n = NilEmpty.string_of_uint d
            /\ Z.of_N (Pos.of_uint d) = n /\ d <> Decimal.Nil.
Proof.
  intros Hn. destruct n as [|q|q]; [| |lia].
  - by exists (Decimal.D0 Decimal.Nil).
  - exists (Pos.to_uint q). rewrite Number_toString_pos. split; [done|].
    rewrite DecimalPos.Unsigned.of_to. split; [done|].
    apply DecimalPos.Unsigned.to_uint_nonnil.
Qed.

Lemma zeros_then_digits k d :
  d <> Decimal.Nil ->
  let text := append (string_of_list_ascii (replicate k "0"%char)) (NilEmpty.string_of_uint d) in
  spanDigits text = (text, EmptyString)
  /\ decimalValue text = Z.of_N (Pos.of_uint d)
  /\ text <> EmptyString
  /\ match text with String c _ => isDigit c = true | EmptyString => False end.
Proof.
  intros Hd. induction k as [|k (IH1 & IH2 & IH3 & IH4)]; cbn zeta.
  - rewrite append_nil. split; [apply spanDigits_print|].
    split; [apply decimalValue_print|].
    destruct d; try done; cbn; done.
  - cbn [replicate string_of_list_ascii]. rewrite append_cons.
    cbn zeta in *. set (text := append _ _) in *.
    split; [|split; [|done]].
    + cbn [spanDigits]. change (isDigit "0") with true. cbn match. by rewrite IH1.
    + unfold decimalValue in *. cbn [NilEmpty.uint_of_string].
      destruct (NilEmpty.uint_of_string text) as [u|]; [by cbn | ].
      cbn. cbn in IH2. done.
Qed.

(** X27.  The header prints the puzzle number padded with zeros to at
    least four digits, and the digits read back as the id: for an id
    from 0 up to [2^53] the padding adds nothing but leading zeros. *)
Theorem id_label_reads_back (p : puzzle) :
  0 <= id p <= 2 ^ 53 ->
  exists digits,
    idLabel p = append "ID: " digits
    /\ String.length digits = Nat.max 4 (String.length (Number_toString (id p)))
    /\ parseInt10 digits = Done (Some (id p)).
Proof.
  intros Hid. exists (padStart 4 "0" (Number_toString (id p))).
  split; [done|]. split; [apply padStart_length|].
  destruct (Number_toString_digits (id p) ltac:(lia)) as (d & E & V & Hd).
  unfold padStart. rewrite E.
  destruct (zeros_then_digits (4 - String.length (NilEmpty.string_of_uint d)) d Hd)
    as (S1 & S2 & S3 & S4).
  cbn zeta in *. set (text := append _ _) in *.
  destruct text as [|c r] eqn:Et; [done|].
  rewrite parseInt10_digit by done. unfold parseDigits. rewrite S1, S2, V.
  destruct (Z.leb_spec (id p) (2 ^ 53)); [done | lia].
Qed.

Lemma id_label_reads_back_witness :
  exists digits,
    idLabel Samples.hashed = append "ID: " digits
    /\ String.length digits
       = Nat.max 4 (String.length (Number_toString (id Samples.hashed)))
    /\ parseInt10 digits = Done (Some (id Samples.hashed)).
Proof.
  apply (id_label_reads_back Samples.hashed).
  vm_compute. split; intros [=].
Defined.

(** X4.  [Math.floor] of the double quotient is the integer quotient
    the day index is modelled by: while the difference of the two time
    values stays within [2^53], dividing by 86400000 in doubles and
    flooring gives exactly [getDayIndex], before the epoch as after
    it. *)
Theorem day_index_quotient_is_exact (c : Clock) (now : Z) :
  Z.abs (localMidnight c now - epoch c) < 2 ^ 53 ->
  dayQuotient c now = getDayIndex c now.
Proof.
  intros Hb. unfold dayQuotient, getDayIndex, msPerDay.
  apply floor_of_quotient; [exact divide_correctlyRounded | done | done].
Qed.

Lemma day_index_quotient_is_exact_witness :
  dayQuotient NewYork.clock 1704067199999
  = getDayIndex NewYork.clock 1704067199999.
Proof.
  apply (day_index_quotient_is_exact NewYork.clock 1704067199999).
  vm_compute. reflexivity.
Defined.

End LabelEdges.

(** ** Timers and blank guesses *)
Section TimerEdges.
Import Outcome Text Json Pool Verify Scoring Session Display.
Context (puzzles : list puzzle).
Implicit Types digest : list Byte.byte -> option (list Byte.byte).

(** X29.  The award is fixed when the guess is submitted: if the hint
    is revealed while the verification is in flight (after the
    submission, before the 400 ms timer), the callback still computes
    the award from the hint flag and the attempts of the render that
    submitted the guess, stores it and adds it to the score, and the
    1500 ms callback then clears the hint flag. *)
Theorem late_hint_does_not_change_the_award
    (snap : AppState) (ls : gmap string string) (items : list scalar) :
  scoreHistory snap = Arr items -> showHint snap = false ->
  let cur := setShowHint true (setStatus checking snap) in
  let points := pointsEarned false (attempts snap) in
  exists ls' cur' pending,
    onCorrect snap ls cur = Some (ls', cur', pending)
    /\ showHint cur' = true /\ status cur' = success
    /\ ls' !! "gchq-score"%string = Some (Number_toString (score snap + points))
    /\ score (pending cur') = score snap + points
    /\ scoreHistory (pending cur') = Arr (items ++ [Num points])
    /\ showHint (pending cur') = false
    /\ (attempts snap = 0 -> points = 100).
Proof.
  intros Hh Hs cur points. unfold onCorrect. rewrite Hh, Hs. cbn [spread].
  eexists _, _, _. split; [reflexivity|].
  split; [done|]. split; [done|]. split.
  { unfold setItem. by rewrite !lookup_insert_ne, lookup_insert_eq by done. }
  unfold advance. fold points.
  split; [by destruct (5 <=? puzzlesToday snap + 1)|].
  split; [by destruct (5 <=? puzzlesToday snap + 1)|].
  split; [by destruct (5 <=? puzzlesToday snap + 1)|].
  intros E. unfold points. by rewrite E.
Qed.

(** X30.  A guess made of white space only is not empty, so the guard
    lets it through; it is normalised to the empty text, which no
    non-empty plain answer equals: on a puzzle without [answerHash] it
    is a wrong guess and costs an attempt. *)
Theorem blank_guess_costs_an_attempt digest
    (ls : gmap string string) (s : AppState) (p : puzzle) (a : string) :
  guess s <> EmptyString -> removeWhiteSpace (guess s) = EmptyString ->
  status s = idle ->
  currentPuzzle puzzles s = Some p ->
  truthy (answerHash p) = false -> answer p = Some a -> a <> EmptyString ->
  dropped s = false
  /\ cleanGuess (guess s) = EmptyString
  /\ handleSubmit digest puzzles ls s = (ls, afterWrong s)
  /\ attempts (snd (handleSubmit digest puzzles ls s)) = attempts s + 1.
Proof.
  intros Hg Hb Hst Hp Hh Ha Hne.
  assert (Hd : dropped s = false).
  { unfold dropped. rewrite Hst. by destruct (guess s). }
  assert (Hc : cleanGuess (guess s) = EmptyString) by by apply cleanGuess_blank.
  assert (Hv : verdict digest puzzles s = Some false).
  { unfold verdict. rewrite Hp. f_equal. unfold isCorrect. rewrite Hh, Hc, Ha.
    apply bool_decide_eq_false. intros [= E]. by apply Hne. }
  split; [done|]. split; [done|].
  by rewrite (handleSubmit_wrong puzzles digest ls s Hd Hv).
Qed.
End TimerEdges.

Lemma late_hint_does_not_change_the_award_witness :
  let snap := Samples.playingOn "Enigma" in
  let cur := Session.setShowHint true (Session.setStatus Session.checking snap) in
  let points := Scoring.pointsEarned false (Session.attempts snap) in
  exists ls' cur' pending,
    Session.onCorrect snap ∅ cur = Some (ls', cur', pending)
    /\ Session.showHint cur' = true /\ Session.status cur' = Session.success
    /\ ls' !! "gchq-score"%string
       = Some (Text.Number_toString (Session.score snap + points))
    /\ Session.score (pending cur') = Session.score snap + points
    /\ Session.scoreHistory (pending cur') = Json.Arr ([] ++ [Json.Num points])
    /\ Session.showHint (pending cur') = false
    /\ (Session.attempts snap = 0 -> points = 100).
Proof.
  apply (late_hint_does_not_change_the_award (Samples.playingOn "Enigma") ∅ []);
    reflexivity.
Defined.

Lemma blank_guess_costs_an_attempt_witness :
  let s := Session.setSession [Some 1] 0 0 (Json.Arr []) (Samples.playingOn "  ") in
  Session.dropped s = false
  /\ Verify.cleanGuess (Session.guess s) = EmptyString
  /\ Session.handleSubmit Samples.noDigest Samples.pool ∅ s = (∅, Session.afterWrong s)
  /\ Session.attempts (snd (Session.handleSubmit Samples.noDigest Samples.pool ∅ s))
     = Session.attempts s + 1.
Proof.
  apply (blank_guess_costs_an_attempt Samples.pool Samples.noDigest ∅
           (Session.setSession [Some 1] 0 0 (Json.Arr []) (Samples.playingOn "  "))
           (Samples.plain 1) "rosebud"); try reflexivity; intros [=].
Defined.
